(** * Statistical process control analytics of SPC-Sample-Updated

    A shallow embedding of the two implementations of
    [calculateAnalysisData] found in the repository:
    - [SpcUtils]: src/src/app/spcUtils.ts
    - [Part000]:  src/unnamed/part_000

    JavaScript numbers are IEEE-754 binary64 values; they are modelled by
    Rocq's primitive floats ([PrimFloat.float]), whose operations [+ - * /],
    [sqrt], [abs] and comparisons are the IEEE-754 round-to-nearest-even
    operations that JavaScript specifies.  Their meaning is given by the
    Standard Library's [Prim2SF] / [FloatAxioms] specification. *)

From Stdlib Require Import String Ascii ZArith List Bool Lia.
From Stdlib Require Import Floats.
Import ListNotations.

#[local] Set Warnings "-inexact-float".

Open Scope Z_scope.
Open Scope list_scope.

(** ** JavaScript number primitives *)
Module Js.

Local Open Scope float_scope.

(** [x > y], [x < y], [x >= y], [x <= y] and [x === y] on numbers. *)
Definition gt (x y : float) : bool := PrimFloat.ltb y x.
Definition lt (x y : float) : bool := PrimFloat.ltb x y.
Definition ge (x y : float) : bool := PrimFloat.leb y x.
Definition le (x y : float) : bool := PrimFloat.leb x y.
Definition eq (x y : float) : bool := PrimFloat.eqb x y.

(** [isNaN] and [Number.isFinite] on a value that is already a number. *)
Definition isNaN (x : float) : bool := PrimFloat.is_nan x.
Definition isFinite (x : float) : bool := PrimFloat.is_finite x.

(** The number value of a natural number (an array length, an index):
    the exact value, rounded to binary64 (exact below 2^53). *)
Definition of_nat (n : nat) : float :=
  SF2Prim (binary_normalize prec emax (Z.of_nat n) 0 false).

(** [Math.abs], [Math.sqrt]. *)
Definition abs (x : float) : float := PrimFloat.abs x.
Definition sqrt (x : float) : float := PrimFloat.sqrt x.

(** [Math.pow(x, 2)], the correctly rounded square. *)
Definition pow2 (x : float) : float := x * x.

(** [Math.max(...xs)] (ECMA-262 Math.max): [-Infinity] for no argument,
    NaN as soon as one argument is NaN, [+0] preferred to [-0]. *)
Definition max_step (acc x : float) : float :=
  if PrimFloat.is_nan acc || PrimFloat.is_nan x then nan
  else if PrimFloat.ltb acc x then x
  else if PrimFloat.is_zero x && PrimFloat.is_zero acc
          && PrimFloat.get_sign acc && negb (PrimFloat.get_sign x) then x
  else acc.

Definition max (xs : list float) : float := fold_left max_step xs neg_infinity.

(** [Math.min(...xs)]: [+Infinity] for no argument, [-0] preferred to [+0]. *)
Definition min_step (acc x : float) : float :=
  if PrimFloat.is_nan acc || PrimFloat.is_nan x then nan
  else if PrimFloat.ltb x acc then x
  else if PrimFloat.is_zero x && PrimFloat.is_zero acc
          && PrimFloat.get_sign x && negb (PrimFloat.get_sign acc) then x
  else acc.

Definition min (xs : list float) : float := fold_left min_step xs infinity.

(** [Math.min(a, b)] on two numbers. *)
Definition min2 (a b : float) : float := min [a; b].

(** [Math.floor]: integral values, zeros, infinities and NaN are returned
    unchanged; otherwise the greatest integer below the value. *)
Definition floor (x : float) : float :=
  match Prim2SF x with
  | S754_finite s m e =>
      if Z.leb 0 e then x
      else SF2Prim (binary_normalize prec emax
                      (Z.shiftr (if s then Z.neg m else Z.pos m) (- e)) 0 s)
  | _ => x
  end.

(** [Math.ceil(x)] is [-Math.floor(-x)]. *)
Definition ceil (x : float) : float := PrimFloat.opp (floor (PrimFloat.opp x)).

(** The array index denoted by an integral non-negative number. *)
Definition to_index (x : float) : nat :=
  match Prim2SF x with
  | S754_finite false m e => Z.to_nat (Z.shiftl (Z.pos m) e)
  | _ => O
  end.

End Js.

(** ** [parseFloat] (ECMA-262, 19.2.4)

    Leading white space is skipped, then the longest prefix that is a
    StrDecimalLiteral ([+|-] (Infinity | digits [. digits] [exponent] |
    . digits [exponent])) is read and its mathematical value rounded to the
    nearest binary64 value; NaN if there is no such prefix.  Strings are
    sequences of 8-bit characters here. *)
Module ParseFloat.

Definition is_space (c : ascii) : bool :=
  let n := nat_of_ascii c in
  (Nat.leb 9 n && Nat.leb n 13) || Nat.eqb n 32 || Nat.eqb n 160.

Definition digit (c : ascii) : option Z :=
  let n := nat_of_ascii c in
  if Nat.leb 48 n && Nat.leb n 57 then Some (Z.of_nat (n - 48)) else None.

Fixpoint skip_space (s : string) : string :=
  match s with
  | String c r => if is_space c then skip_space r else s
  | EmptyString => s
  end.

(** Reads a run of digits: its value appended to [acc], its length, rest. *)
Fixpoint digits (s : string) (acc : Z) (n : nat) : Z * nat * string :=
  match s with
  | String c r =>
      match digit c with
      | Some d => digits r (10 * acc + d) (S n)
      | None => (acc, n, s)
      end
  | EmptyString => (acc, n, s)
  end.

Definition sign (s : string) : bool * string :=
  match s with
  | String c r =>
      if Ascii.eqb c "-"%char then (true, r)
      else if Ascii.eqb c "+"%char then (false, r)
      else (false, s)
  | EmptyString => (false, s)
  end.

(** The optional exponent part: its value, or 0 when it is absent. *)
Definition exponent (s : string) : Z :=
  match s with
  | String c r =>
      if Ascii.eqb c "e"%char || Ascii.eqb c "E"%char then
        let '(neg, r') := sign r in
        let '(v, n, _) := digits r' 0 O in
        if Nat.eqb n 0 then 0 else if neg then - v else v
      else 0
  | EmptyString => 0
  end.

Definition starts_with_infinity (s : string) : bool :=
  String.prefix "Infinity" s.

(** [m * 10^e] rounded to nearest even, with sign [neg]. *)
Definition round_decimal (neg : bool) (m : Z) (e : Z) : float :=
  match m with
  | Z.pos p =>
      if Z.leb 0 e then
        SF2Prim (binary_normalize prec emax
                   ((if neg then Z.opp else id) (Z.pos p * 10 ^ e)) 0 neg)
      else
        SF2Prim (SF64div (S754_finite neg p 0) (S754_finite false (Z.to_pos (10 ^ (- e))) 0))
  | _ => if neg then neg_zero else zero
  end.

Definition parseFloat (s : string) : float :=
  let s := skip_space s in
  let '(neg, s) := sign s in
  if starts_with_infinity s then (if neg then neg_infinity else infinity)
  else
    let '(ip, ni, s1) := digits s 0 O in
    match s1 with
    | String c r =>
        if Ascii.eqb c "."%char then
          let '(fp, nf, s2) := digits r ip O in
          if Nat.eqb ni 0 && Nat.eqb nf 0 then nan
          else round_decimal neg fp (exponent s2 - Z.of_nat nf)
        else if Nat.eqb ni 0 then nan
        else round_decimal neg ip (exponent s1)
    | EmptyString => if Nat.eqb ni 0 then nan else round_decimal neg ip 0
    end.

End ParseFloat.
Export ParseFloat (parseFloat).

(** ** Data model *)

(** [InspectionData] (from "@/types"): three textual numeric fields. *)
Record InspectionData := {
  ActualSpecification : string;
  FromSpecification : string;
  ToSpecification : string
}.

(** One row of [controlChartConstants]. *)
Record ChartConstants := { A2 : float; D3 : float; D4 : float; d2 : float }.

(** [controlChartConstants[sampleSize.toString()]]: the table has the keys
    "1" to "5", so the lookup succeeds exactly for the numbers 1 to 5; the
    size is returned with its row, as the natural number the subgrouping
    loops step by. *)
Definition controlChartConstants (sampleSize : float) : option (nat * ChartConstants) :=
  if PrimFloat.eqb sampleSize 1%float then
    Some (1%nat, {| A2 := 2.66; D3 := 0; D4 := 3.267; d2 := 1.128 |})
  else if PrimFloat.eqb sampleSize 2%float then
    Some (2%nat, {| A2 := 1.88; D3 := 0; D4 := 3.267; d2 := 1.128 |})
  else if PrimFloat.eqb sampleSize 3%float then
    Some (3%nat, {| A2 := 1.772; D3 := 0; D4 := 2.574; d2 := 1.693 |})
  else if PrimFloat.eqb sampleSize 4%float then
    Some (4%nat, {| A2 := 0.796; D3 := 0; D4 := 2.282; d2 := 2.059 |})
  else if PrimFloat.eqb sampleSize 5%float then
    Some (5%nat, {| A2 := 0.691; D3 := 0; D4 := 2.114; d2 := 2.326 |})
  else None.

(** The two errors thrown by [calculateAnalysisData], and the TypeError of
    reading a field of [inspectionData[0]] when it is undefined. *)
Inductive AnalysisError :=
| InvalidSampleSize
| InsufficientData
| UndefinedRecord.

(** [AnalysisData["distribution"]]: the bin counts (the [y] of
    [histData]), the bin edges and the summary statistics. *)
Record Distribution := {
  bins : list nat;
  binEdges : list float;
  dist_min : float;
  dist_max : float;
  dist_mean : float;
  dist_target : float
}.

(** The quantities computed by [calculateAnalysisData] and the labels it
    returns.  The index fields hold the values the function computes and
    compares ([cp], [cpk], ...); the presentation of [metrics] through
    [toFixed] is not modelled.  [xBarData] and [rangeData] are the [y]
    values of the chart points, whose [x] is the 1-based position. *)
Record AnalysisData := {
  r_lsl : float;
  r_usl : float;
  grandMean : float;
  avgRange : float;
  xBarUcl : float;
  xBarLcl : float;
  rangeUcl : float;
  rangeLcl : float;
  stdDev : float;
  withinStdDev : float;
  cp : float; cpu : float; cpl : float; cpk : float;
  pp : float; ppu : float; ppl : float; ppk : float;
  xBarData : list float;
  rangeData : list float;
  distribution : Distribution;
  pointsOutsideXBarLimits : nat;
  pointsOutsideRangeLimits : nat;
  ss_processShift : string;
  ss_processSpread : string;
  ss_specialCausePresent : string;
  ss_pointsOutsideLimits : string;
  ss_rangePointsOutsideLimits : string;
  ss_eightConsecutivePoints : string;
  ss_sixConsecutiveTrend : string;
  pi_decisionRemark : string;
  pi_processPotential : string;
  pi_processPerformance : string;
  pi_processStability : string;
  pi_processShift : string
}.

(** ** Helpers shared by both implementations *)

(** [xs.reduce((sum, v) => sum + v, 0)]. *)
Definition sum (xs : list float) : float :=
  fold_left (fun acc v => (acc + v)%float) xs 0%float.

(** The subgroups [measurements.slice(i, min(i + k, n))] for
    [i = 0, k, 2k, ...] below [n]; [fuel] bounds the iterations. *)
Fixpoint chunks_fuel (fuel k : nat) (l : list float) : list (list float) :=
  match fuel with
  | O => []
  | S fuel' =>
      match l with
      | [] => []
      | _ => firstn k l :: chunks_fuel fuel' k (skipn k l)
      end
  end.

Definition chunks (k : nat) (l : list float) : list (list float) :=
  chunks_fuel (length l) k l.

(** [bins[i]++] on an index inside the array. *)
Fixpoint incr_at (i : nat) (l : list nat) : list nat :=
  match l, i with
  | [], _ => []
  | x :: r, O => S x :: r
  | x :: r, S i' => x :: incr_at i' r
  end.

(** Decimal digits of a count, for the template strings. *)
Fixpoint digits_of_nat (fuel n : nat) (acc : string) : string :=
  match fuel with
  | O => acc
  | S f =>
      let acc' := String (ascii_of_nat (48 + n mod 10)) acc in
      if Nat.ltb n 10 then acc' else digits_of_nat f (n / 10) acc'
  end.

Definition string_of_nat (n : nat) : string := digits_of_nat (S n) n EmptyString.

(** The label rules shared by the two files: [processShift], [processSpread],
    [specialCausePresent] and the capability tiers. *)
Definition label (b : bool) (yes no : string) : string := if b then yes else no.

(** ** src/src/app/spcUtils.ts *)
Module SpcUtils.
Local Open Scope float_scope.

Definition calculateSubgroupXBar (measurements : list float) (sampleSize : nat) : list float :=
  if Nat.eqb sampleSize 1 then measurements
  else flat_map (fun subgroup =>
         if Nat.ltb 0 (length subgroup)
         then [sum subgroup / Js.of_nat (length subgroup)] else [])
       (chunks sampleSize measurements).

(** Moving ranges [Math.abs(m[i] - m[i - 1])] for [i = 1 .. n - 1]. *)
Fixpoint movingRanges (measurements : list float) : list float :=
  match measurements with
  | a :: ((b :: _) as rest) => Js.abs (b - a) :: movingRanges rest
  | _ => []
  end.

Definition calculateSubgroupRanges (measurements : list float) (sampleSize : nat) : list float :=
  if Nat.eqb sampleSize 1 then movingRanges measurements
  else flat_map (fun subgroup =>
         if Nat.ltb 1 (length subgroup)
         then [Js.max subgroup - Js.min subgroup] else [])
       (chunks sampleSize measurements).

Definition calculateMean (data : list float) : option float :=
  match data with
  | [] => None
  | _ => Some (sum data / Js.of_nat (length data))
  end.

Definition calculateStdDev (data : list float) (mean : option float) : option float :=
  match data with
  | [] => None
  | _ =>
      let dataMean := match mean with Some m => Some m | None => calculateMean data end in
      match dataMean with
      | None => None
      | Some dataMean =>
          let squaredDiffs := map (fun value => Js.pow2 (value - dataMean)) data in
          match calculateMean squaredDiffs with
          | Some variance => Some (Js.sqrt variance)
          | None => None
          end
      end
  end.

(** One step of [data.forEach] filling the histogram. *)
Definition bin_step (max binStart binWidth binCountF : float) (binCount : nat)
    (bins : list nat) (value : float) : list nat :=
  if Js.eq value max then incr_at (binCount - 1) bins
  else
    let binIndex := Js.floor ((value - binStart) / binWidth) in
    if Js.ge binIndex 0 && Js.lt binIndex binCountF
    then incr_at (Js.to_index binIndex) bins else bins.

Definition calculateDistributionData (data : list float) (lsl usl : float) : option Distribution :=
  match data with
  | [] => None
  | _ =>
      let min := Js.min data in
      let max := Js.max data in
      let range := max - min in
      let binCountF := Js.ceil (Js.sqrt (Js.of_nat (length data))) in
      let binCount := Js.to_index binCountF in
      let binWidth := range / binCountF in
      let binStart := Js.min2 min lsl in
      let bins := fold_left (bin_step max binStart binWidth binCountF binCount)
                    data (repeat O binCount) in
      let binEdges := map (fun i => binStart + Js.of_nat i * binWidth) (seq 0 (S binCount)) in
      Some {| bins := bins; binEdges := binEdges; dist_min := min; dist_max := max;
              dist_mean := match calculateMean data with Some m => m | None => 0 end;
              dist_target := (usl + lsl) / 2 |}
  end.

(** The state of the runs-and-trends loop. *)
Record RunState := {
  consecutiveAboveMean : nat;
  consecutiveBelowMean : nat;
  maxConsecutiveAbove : nat;
  maxConsecutiveBelow : nat;
  consecutiveIncreasing : nat;
  consecutiveDecreasing : nat
}.

Definition run_init : RunState := Build_RunState 0 0 0 0 0 0.

(** The body of the loop for the point [y], with [prev] the previous point
    when [i > 0]. *)
Definition run_step (grandMean : float) (prev : option float) (st : RunState) (y : float)
    : RunState :=
  let '(Build_RunState cA cB mA mB cI cD) := st in
  let '(cA, cB, mA, mB) :=
    if Js.gt y grandMean then (S cA, 0%nat, Nat.max mA (S cA), mB)
    else if Js.lt y grandMean then (0%nat, S cB, mA, Nat.max mB (S cB))
    else (0%nat, 0%nat, mA, mB) in
  let '(cI, cD) :=
    match prev with
    | None => (cI, cD)
    | Some p =>
        if Js.gt y p then (S cI, 0%nat)
        else if Js.lt y p then (0%nat, S cD)
        else (0%nat, 0%nat)
    end in
  Build_RunState cA cB mA mB cI cD.

Fixpoint run_loop (grandMean : float) (prev : option float) (st : RunState) (ys : list float)
    : RunState :=
  match ys with
  | [] => st
  | y :: ys' => run_loop grandMean (Some y) (run_step grandMean prev st y) ys'
  end.

Definition calculateAnalysisData (inspectionData : list InspectionData) (sampleSize : float)
    : AnalysisError + AnalysisData :=
  match controlChartConstants sampleSize with
  | None => inl InvalidSampleSize
  | Some (k, constants) =>
  let measurements :=
    filter (fun m => negb (Js.isNaN m))
      (map (fun d => parseFloat (ActualSpecification d)) inspectionData) in
  if Js.lt (Js.of_nat (length measurements)) sampleSize then inl InsufficientData else
  match inspectionData with
  | [] => inl UndefinedRecord
  | d0 :: _ =>
  let lsl := parseFloat (FromSpecification d0) in
  let usl := parseFloat (ToSpecification d0) in
  let xBarValues := calculateSubgroupXBar measurements k in
  let rangeValues := calculateSubgroupRanges measurements k in
  let grandMean := match calculateMean xBarValues with Some m => m | None => 0 end in
  let avgRange := match calculateMean rangeValues with Some m => m | None => 0 end in
  let xBarUcl := grandMean + A2 constants * avgRange in
  let xBarLcl := grandMean - A2 constants * avgRange in
  let rangeUcl := D4 constants * avgRange in
  let rangeLcl := D3 constants * avgRange in
  let stdDev := match calculateStdDev measurements None with Some s => s | None => 0 end in
  let withinStdDev := avgRange / d2 constants in
  let safeWithinStdDev := if Js.eq withinStdDev 0 then 0.000001 else withinStdDev in
  let safeStdDev := if Js.eq stdDev 0 then 0.000001 else stdDev in
  let cp := (usl - lsl) / (6 * safeWithinStdDev) in
  let cpu := (usl - grandMean) / (3 * safeWithinStdDev) in
  let cpl := (grandMean - lsl) / (3 * safeWithinStdDev) in
  let cpk := Js.min2 cpu cpl in
  let pp := (usl - lsl) / (6 * safeStdDev) in
  let ppu := (usl - grandMean) / (3 * safeStdDev) in
  let ppl := (grandMean - lsl) / (3 * safeStdDev) in
  let ppk := Js.min2 ppu ppl in
  let pointsOutsideXBarLimits :=
    length (filter (fun y => Js.gt y xBarUcl || Js.lt y xBarLcl) xBarValues) in
  let pointsOutsideRangeLimits :=
    length (filter (fun y => Js.gt y rangeUcl || Js.lt y rangeLcl) rangeValues) in
  let st := run_loop grandMean None run_init xBarValues in
  let hasEightConsecutive :=
    Nat.leb 8 (maxConsecutiveAbove st) || Nat.leb 8 (maxConsecutiveBelow st) in
  let hasSixConsecutiveTrend :=
    Nat.leb 6 (consecutiveIncreasing st) || Nat.leb 6 (consecutiveDecreasing st) in
  let distribution :=
    match calculateDistributionData measurements lsl usl with
    | Some dd => dd
    | None => {| bins := []; binEdges := []; dist_min := 0; dist_max := 0; dist_mean := 0;
                 dist_target := (usl + lsl) / 2 |}
    end in
  inr {|
    r_lsl := lsl; r_usl := usl; grandMean := grandMean; avgRange := avgRange;
    xBarUcl := xBarUcl; xBarLcl := xBarLcl; rangeUcl := rangeUcl; rangeLcl := rangeLcl;
    stdDev := stdDev; withinStdDev := withinStdDev;
    cp := cp; cpu := cpu; cpl := cpl; cpk := cpk;
    pp := pp; ppu := ppu; ppl := ppl; ppk := ppk;
    xBarData := xBarValues; rangeData := rangeValues; distribution := distribution;
    pointsOutsideXBarLimits := pointsOutsideXBarLimits;
    pointsOutsideRangeLimits := pointsOutsideRangeLimits;
    ss_processShift := label (Js.lt cpk (0.75 * cp)) "Yes" "No";
    ss_processSpread := label (Js.lt cp 1) "Yes" "No";
    ss_specialCausePresent :=
      if Js.ge pp cp then "Special Cause Detection impossible"
      else label (Js.lt pp (0.75 * cp)) "Yes" "No";
    ss_pointsOutsideLimits :=
      if Nat.ltb 0 pointsOutsideXBarLimits
      then (string_of_nat pointsOutsideXBarLimits ++ " Points Detected")%string else "None";
    ss_rangePointsOutsideLimits :=
      if Nat.ltb 0 pointsOutsideRangeLimits
      then (string_of_nat pointsOutsideRangeLimits ++ " Points Detected")%string else "None";
    ss_eightConsecutivePoints := label hasEightConsecutive "Yes" "No";
    ss_sixConsecutiveTrend := label hasSixConsecutiveTrend "Yes" "No";
    pi_decisionRemark :=
      if Js.ge cpk 1.67 then "Process Excellent"
      else if Js.ge cpk 1.45 then "Process is more capable, Scope for Further Improvement"
      else if Js.ge cpk 1.33 then "Process is capable, Scope for Further Improvement"
      else if Js.ge cpk 1.0 then "Process is slightly capable, need 100% inspection"
      else "Stop Process change, process design";
    pi_processPotential :=
      if Js.ge cp 1.33 then "Excellent" else if Js.ge cp 1.0 then "Good" else "Poor";
    pi_processPerformance :=
      if Js.ge cpk 1.33 then "Excellent" else if Js.ge cpk 1.0 then "Good" else "Poor";
    pi_processStability :=
      label (Nat.eqb pointsOutsideXBarLimits 0 && negb hasEightConsecutive) "Stable" "Unstable";
    pi_processShift := label hasEightConsecutive "Present" "Not Detected"
  |}
  end
  end.

End SpcUtils.

(** ** src/unnamed/part_000 *)
Module Part000.
Local Open Scope float_scope.

(** The mean of the finite values, absent when there is none. *)
Definition calculateMean (data : list float) : option float :=
  match data with
  | [] => None
  | _ =>
      let filtered := filter Js.isFinite data in
      match filtered with
      | [] => None
      | _ => Some (sum filtered / Js.of_nat (length filtered))
      end
  end.

Definition calculateStdDev (data : list float) (mean : option float) : option float :=
  match data with
  | [] => None
  | _ =>
      let m := match mean with Some m => Some m | None => calculateMean data end in
      match m with
      | None => None
      | Some m =>
          let squaredDiffs := filter Js.isFinite (map (fun v => Js.pow2 (v - m)) data) in
          match calculateMean squaredDiffs with
          | Some variance => Some (Js.sqrt variance)
          | None => None
          end
      end
  end.

(** One step of [data.forEach] filling the histogram. *)
Definition bin_step (max binStart binWidth binCountF : float) (binCount : nat)
    (bins : list nat) (v : float) : list nat :=
  if negb (Js.isFinite v) then bins
  else
    let index := if Js.eq v max then Js.of_nat (binCount - 1)
                 else Js.floor ((v - binStart) / binWidth) in
    if Js.ge index 0 && Js.lt index binCountF
    then incr_at (Js.to_index index) bins else bins.

Definition calculateDistributionData (data : list float) (lsl usl : float) : option Distribution :=
  match data with
  | [] => None
  | _ =>
      let min := Js.min data in
      let max := Js.max data in
      let range := max - min in
      let binCountF := Js.ceil (Js.sqrt (Js.of_nat (length data))) in
      let binCount := Js.to_index binCountF in
      let binWidth := range / binCountF in
      let binStart := Js.min2 min lsl in
      let bins := fold_left (bin_step max binStart binWidth binCountF binCount)
                    data (repeat O binCount) in
      let binEdges := map (fun i => binStart + Js.of_nat i * binWidth) (seq 0 (S binCount)) in
      Some {| bins := bins; binEdges := binEdges; dist_min := min; dist_max := max;
              dist_mean := match calculateMean data with Some m => m | None => 0 end;
              dist_target := (lsl + usl) / 2 |}
  end.

(** The result of [analyzeRuns]. *)
Record Runs := {
  runsAbove : nat;
  runsBelow : nat;
  maxRunLength : nat;
  maxTrendUp : nat;
  maxTrendDown : nat
}.

(** The state of [data.forEach] in [analyzeRuns]. *)
Record RunState := {
  rs_runsAbove : nat;
  rs_runsBelow : nat;
  rs_maxRunLength : nat;
  rs_currentRun : nat;
  rs_prevAboveMean : option bool
}.

Definition run_step (mean : float) (st : RunState) (value : float) : RunState :=
  let '(Build_RunState ra rb mx cur prev) := st in
  let isAbove := Js.gt value mean in
  match prev with
  | None => Build_RunState ra rb mx 1 (Some isAbove)
  | Some pa =>
      if Bool.eqb isAbove pa then Build_RunState ra rb mx (S cur) prev
      else
        let '(ra, rb) := if pa then (S ra, rb) else (ra, S rb) in
        Build_RunState ra rb (Nat.max mx cur) 1 (Some isAbove)
  end.

(** The loop over [i = 1 .. n - 1]: [prev] is [data[i - 1]]; the state is
    [(maxTrendUp, maxTrendDown, trendUp, trendDown)]. *)
Fixpoint trend_loop (prev : float) (data : list float) (st : nat * nat * nat * nat)
    : nat * nat * nat * nat :=
  match data with
  | [] => st
  | x :: data' =>
      let '(mU, mD, tU, tD) := st in
      let '(tU, tD) :=
        if Js.gt x prev then (S tU, 1%nat)
        else if Js.lt x prev then (1%nat, S tD)
        else (1%nat, 1%nat) in
      trend_loop x data' (Nat.max mU tU, Nat.max mD tD, tU, tD)
  end.

Definition analyzeRuns (data : list float) : option Runs :=
  match data with
  | [] => None
  | d0 :: data' =>
      match calculateMean data with
      | None => None
      | Some mean =>
          let '(Build_RunState ra rb mx cur prev) :=
            fold_left (run_step mean) data (Build_RunState 0 0 0 0 None) in
          let '(ra, rb, mx) :=
            match prev with
            | Some pa => (if pa then (S ra, rb) else (ra, S rb), Nat.max mx cur)
            | None => (ra, rb, mx)
            end in
          let '(mU, mD, _, _) := trend_loop d0 data' (0%nat, 0%nat, 1%nat, 1%nat) in
          Some {| runsAbove := ra; runsBelow := rb; maxRunLength := mx;
                  maxTrendUp := mU; maxTrendDown := mD |}
      end
  end.

(** Moving ranges, keeping the finite ones. *)
Fixpoint movingRanges (measurements : list float) : list float :=
  match measurements with
  | a :: ((b :: _) as rest) =>
      let mr := Js.abs (b - a) in
      if Js.isFinite mr then mr :: movingRanges rest else movingRanges rest
  | _ => []
  end.

(** [subgroupMeans] and [subgroupRanges]. *)
Definition subgroups (measurements : list float) (sampleSize : nat) : list float * list float :=
  if Nat.eqb sampleSize 1 then
    (map (fun v => if Js.isFinite v then v else 0) measurements, movingRanges measurements)
  else
    fold_left (fun '(means, ranges) group =>
        if Nat.ltb 0 (length group) then
          (means ++ [match calculateMean group with Some m => m | None => 0 end],
           ranges ++ [Js.max group - Js.min group])
        else (means, ranges))
      (chunks sampleSize measurements) ([], []).

Definition valid (d : InspectionData) : bool :=
  Js.isFinite (parseFloat (ActualSpecification d))
  && Js.isFinite (parseFloat (FromSpecification d))
  && Js.isFinite (parseFloat (ToSpecification d)).

Definition calculateAnalysisData (inspectionData : list InspectionData) (sampleSize : float)
    : AnalysisError + AnalysisData :=
  match controlChartConstants sampleSize with
  | None => inl InvalidSampleSize
  | Some (k, constants) =>
  let validData := filter valid inspectionData in
  let measurements := map (fun d => parseFloat (ActualSpecification d)) validData in
  if Js.lt (Js.of_nat (length measurements)) sampleSize then inl InsufficientData else
  match validData with
  | [] => inl UndefinedRecord
  | d0 :: _ =>
  let lsl := parseFloat (FromSpecification d0) in
  let usl := parseFloat (ToSpecification d0) in
  let '(subgroupMeans, subgroupRanges) := subgroups measurements k in
  let grandMean := match calculateMean subgroupMeans with Some m => m | None => 0 end in
  let avgRange := match calculateMean subgroupRanges with Some m => m | None => 0 end in
  let stdDev := match calculateStdDev measurements (Some grandMean) with
                | Some s => s | None => 0 end in
  let xBarUcl := grandMean + A2 constants * avgRange in
  let xBarLcl := grandMean - A2 constants * avgRange in
  let rangeUcl := D4 constants * avgRange in
  let rangeLcl := D3 constants * avgRange in
  let withinStdDev := if Nat.eqb k 1 then avgRange / d2 constants else avgRange / d2 constants in
  let cp := (usl - lsl) / (6 * withinStdDev) in
  let cpu := (usl - grandMean) / (3 * withinStdDev) in
  let cpl := (grandMean - lsl) / (3 * withinStdDev) in
  let cpk := Js.min2 cpu cpl in
  let pp := (usl - lsl) / (6 * stdDev) in
  let ppu := (usl - grandMean) / (3 * stdDev) in
  let ppl := (grandMean - lsl) / (3 * stdDev) in
  let ppk := Js.min2 ppu ppl in
  let distribution :=
    match calculateDistributionData measurements lsl usl with
    | Some dd => dd
    | None => {| bins := []; binEdges := []; dist_min := 0; dist_max := 0; dist_mean := 0;
                 dist_target := (lsl + usl) / 2 |}
    end in
  let runs :=
    match analyzeRuns subgroupMeans with
    | Some r => r
    | None => {| runsAbove := 0; runsBelow := 0; maxRunLength := 0;
                 maxTrendUp := 0; maxTrendDown := 0 |}
    end in
  let pointsOutsideXBarLimits :=
    length (filter (fun y => Js.gt y xBarUcl || Js.lt y xBarLcl) subgroupMeans) in
  let pointsOutsideRangeLimits :=
    length (filter (fun y => Js.gt y rangeUcl || Js.lt y rangeLcl) subgroupRanges) in
  inr {|
    r_lsl := lsl; r_usl := usl; grandMean := grandMean; avgRange := avgRange;
    xBarUcl := xBarUcl; xBarLcl := xBarLcl; rangeUcl := rangeUcl; rangeLcl := rangeLcl;
    stdDev := stdDev; withinStdDev := withinStdDev;
    cp := cp; cpu := cpu; cpl := cpl; cpk := cpk;
    pp := pp; ppu := ppu; ppl := ppl; ppk := ppk;
    xBarData := subgroupMeans; rangeData := subgroupRanges; distribution := distribution;
    pointsOutsideXBarLimits := pointsOutsideXBarLimits;
    pointsOutsideRangeLimits := pointsOutsideRangeLimits;
    ss_processShift := label (Js.lt cpk (0.75 * cp)) "Yes" "No";
    ss_processSpread := label (Js.lt cp 1) "Yes" "No";
    ss_specialCausePresent :=
      if Js.ge pp cp then "Special Cause Detection impossible"
      else label (Js.lt pp (0.75 * cp)) "Yes" "No";
    ss_pointsOutsideLimits :=
      label (Nat.ltb 0 pointsOutsideXBarLimits) "Points Detected" "None";
    ss_rangePointsOutsideLimits :=
      label (Nat.ltb 0 pointsOutsideRangeLimits) "Points Detected" "None";
    ss_eightConsecutivePoints := label (Nat.leb 8 (maxRunLength runs)) "Yes" "No";
    ss_sixConsecutiveTrend :=
      label (Nat.leb 6 (Nat.max (maxTrendUp runs) (maxTrendDown runs))) "Yes" "No";
    pi_decisionRemark :=
      if Js.ge cpk 1.67 then "Process Excellent"
      else if Js.ge cpk 1.45 then "Process more capable, improve"
      else if Js.ge cpk 1.33 then "Process capable"
      else if Js.ge cpk 1.0 then "Slightly capable"
      else "Stop and fix";
    pi_processPotential :=
      if Js.ge cp 1.33 then "Excellent" else if Js.ge cp 1.0 then "Good" else "Poor";
    pi_processPerformance :=
      if Js.ge cpk 1.33 then "Excellent" else if Js.ge cpk 1.0 then "Good" else "Poor";
    pi_processStability :=
      label (forallb (fun y => Js.ge y xBarLcl && Js.le y xBarUcl) subgroupMeans
             && Nat.eqb (maxRunLength runs) 0) "Stable" "Unstable";
    pi_processShift := label (Nat.leb 8 (maxRunLength runs)) "Present" "Not Detected"
  |}
  end
  end.

End Part000.

(** ** Concrete inputs *)
Module Inputs.
Local Open Scope string_scope.

Definition record (a f t : string) : InspectionData :=
  {| ActualSpecification := a; FromSpecification := f; ToSpecification := t |}.

(** Measurements within the limits [f] to [t]. *)
Definition series (f t : string) (xs : list string) : list InspectionData :=
  map (fun a => record a f t) xs.

(** Three identical measurements. *)
Definition identical3 : list InspectionData := series "5" "15" ["3"; "3"; "3"].

(** Three identical measurements whose mean is not exactly their value,
    with very wide limits. *)
Definition tenthsWideLimits : list InspectionData :=
  series "-1e300" "1e300" ["0.1"; "0.1"; "0.1"].

(** A first record whose lower limit does not parse. *)
Definition unparsedFirstLimit : list InspectionData :=
  [record "4" "abc" "10"; record "5" "0" "10"].

Definition zeroZeroThree : list InspectionData := series "-10" "10" ["0"; "0"; "3"].

(** Seven increasing points and a drop. *)
Definition riseThenDrop : list InspectionData :=
  series "0" "10" ["1"; "2"; "3"; "4"; "5"; "6"; "7"; "0"].

Definition constant8 : list InspectionData := series "0" "2" (repeat "1" 8).

Definition constant5 : list InspectionData := series "0" "2" (repeat "1" 5).

(** A lower limit far below the data. *)
Definition farLowerLimit : list InspectionData := series "-100" "100" ["0"; "10"].

Definition oneTwoThree : list InspectionData := series "0" "10" ["1"; "2"; "3"].

Definition extremes : list InspectionData := series "-1e308" "1e308" ["-1e308"; "1e308"].

End Inputs.

(** ** The properties as the specification states them *)
Module SpecSide.
Local Open Scope float_scope.

(** The outcome of one call for a series of [count] valid measurements: the
    invalid-sample-size error exactly when the size has no table entry, the
    insufficient-data error exactly when the size has an entry [k] and
    [count < k], and no other error. *)
Definition reports_errors (result : AnalysisError + AnalysisData) (sampleSize : float)
    (count : nat) : Prop :=
  (result = inl InvalidSampleSize <-> controlChartConstants sampleSize = None) /\
  (result = inl InsufficientData <->
     exists k cst, controlChartConstants sampleSize = Some (k, cst) /\ (count < k)%nat) /\
  (forall e, result = inl e -> e = InvalidSampleSize \/ e = InsufficientData).

(** The population standard deviation of [xs] around [center]: the square
    root of the sum of the squared deviations divided by [N]. *)
Definition populationStdDev (center : float) (xs : list float) : float :=
  Js.sqrt (sum (map (fun x => Js.pow2 (x - center)) xs) / Js.of_nat (length xs)).

(** [xs] has [n] consecutive points satisfying [p]. *)
Definition has_streak (p : float -> bool) (n : nat) (xs : list float) : Prop :=
  exists pre mid post, xs = pre ++ mid ++ post /\ length mid = n /\ forallb p mid = true.

End SpecSide.

(** ** The subgroup contributions of part_000

    The fold of [part_000] that fills [subgroupMeans] and [subgroupRanges]
    appends one mean and one range per non-empty subgroup. *)
Module SubgroupParts.

Definition part_mean (group : list float) : list float :=
  if Nat.ltb 0 (length group)
  then [match Part000.calculateMean group with Some m => m | None => 0%float end] else [].

Definition part_range (group : list float) : list float :=
  if Nat.ltb 0 (length group) then [(Js.max group - Js.min group)%float] else [].

End SubgroupParts.

(** ** Facts about binary64 numbers *)
Module FloatFacts.

Lemma Prim2SF_inj (x y : float) : Prim2SF x = Prim2SF y -> x = y.
Proof.
  intro H. rewrite <- (SF2Prim_Prim2SF x), <- (SF2Prim_Prim2SF y), H. reflexivity.
Qed.

(** A number that is neither NaN nor infinite is a zero or a finite value. *)
Lemma finite_cases (x : float) :
  PrimFloat.is_finite x = true ->
  (exists s, Prim2SF x = S754_zero s) \/ (exists s m e, Prim2SF x = S754_finite s m e).
Proof.
  unfold PrimFloat.is_finite. intro H.
  destruct (PrimFloat.is_nan x) eqn:Hn; [discriminate|].
  destruct (PrimFloat.is_infinity x) eqn:Hi; [discriminate|].
  unfold Prim2SF. rewrite Hn.
  destruct (PrimFloat.is_zero x); [left; eauto|]. rewrite Hi.
  destruct (Z.frexp x) as [r ex].
  destruct (shr_fexp prec emax _ _ _) as [shr e'].
  destruct (shr_m shr); eauto.
Qed.

Lemma nan_Prim2SF (x : float) : PrimFloat.is_nan x = true -> Prim2SF x = S754_nan.
Proof. intro H. unfold Prim2SF. rewrite H. reflexivity. Qed.

Lemma Prim2SF_not_nan (x : float) : PrimFloat.is_nan x = false -> Prim2SF x <> S754_nan.
Proof.
  intro H. unfold Prim2SF. rewrite H.
  destruct (PrimFloat.is_zero x); [discriminate|].
  destruct (PrimFloat.is_infinity x); [discriminate|].
  destruct (Z.frexp x) as [r ex].
  destruct (shr_fexp prec emax _ _ _) as [shr e'].
  destruct (shr_m shr); discriminate.
Qed.

Lemma is_nan_spec (x : float) : PrimFloat.is_nan x = true <-> Prim2SF x = S754_nan.
Proof.
  split; [apply nan_Prim2SF|].
  destruct (PrimFloat.is_nan x) eqn:H; [reflexivity|].
  intro E. exfalso. exact (Prim2SF_not_nan x H E).
Qed.

Lemma finite_not_nan (x : float) : PrimFloat.is_finite x = true -> PrimFloat.is_nan x = false.
Proof. unfold PrimFloat.is_finite. destruct (PrimFloat.is_nan x); easy. Qed.

Lemma Prim2SF_zero : Prim2SF 0%float = S754_zero false.
Proof. reflexivity. Qed.

Lemma sub_self (x : float) : PrimFloat.is_finite x = true -> (x - x = 0)%float.
Proof.
  intro H. apply Prim2SF_inj. rewrite sub_spec, Prim2SF_zero.
  destruct (finite_cases x H) as [[s E] | [s [m [e E]]]]; rewrite E.
  - destruct s; reflexivity.
  - cbn -[binary_normalize]. rewrite Z.min_id.
    unfold shl_align. rewrite Z.sub_diag. cbn -[binary_normalize].
    reflexivity.
Qed.

Lemma Pos_compare_cont_refl (m : positive) : Pos.compare_cont Eq m m = Eq.
Proof. apply Pos.compare_cont_refl. Qed.

Lemma SFcompare_refl (a : spec_float) : a <> S754_nan -> SFcompare a a = Some Eq.
Proof.
  intro H. destruct a as [s|s| |s m e]; try destruct s; try congruence; simpl;
    try rewrite Z.compare_refl; try rewrite Pos_compare_cont_refl; reflexivity.
Qed.

Lemma ltb_irrefl (x : float) : PrimFloat.is_nan x = false -> PrimFloat.ltb x x = false.
Proof.
  intro H. rewrite ltb_spec. unfold SFltb.
  rewrite SFcompare_refl by (apply Prim2SF_not_nan; exact H). reflexivity.
Qed.

Lemma neg_infinity_lt (x : float) : PrimFloat.is_finite x = true ->
  PrimFloat.ltb neg_infinity x = true.
Proof.
  intro H. rewrite ltb_spec.
  destruct (finite_cases x H) as [[s E] | [s [m [e E]]]]; rewrite E; reflexivity.
Qed.

Lemma lt_infinity (x : float) : PrimFloat.is_finite x = true ->
  PrimFloat.ltb x infinity = true.
Proof.
  intro H. rewrite ltb_spec.
  destruct (finite_cases x H) as [[s E] | [s [m [e E]]]]; rewrite E; reflexivity.
Qed.

Lemma max_step_same (c : float) : PrimFloat.is_nan c = false -> Js.max_step c c = c.
Proof.
  intro H. unfold Js.max_step. rewrite H, ltb_irrefl by exact H. simpl.
  destruct (PrimFloat.is_zero c), (PrimFloat.get_sign c); reflexivity.
Qed.

Lemma min_step_same (c : float) : PrimFloat.is_nan c = false -> Js.min_step c c = c.
Proof.
  intro H. unfold Js.min_step. rewrite H, ltb_irrefl by exact H. simpl.
  destruct (PrimFloat.is_zero c), (PrimFloat.get_sign c); reflexivity.
Qed.

Lemma fold_max_same (c : float) (l : list float) : PrimFloat.is_nan c = false ->
  Forall (fun v => v = c) l -> fold_left Js.max_step l c = c.
Proof.
  intros H F. induction F as [|v l E F IH]; [reflexivity|].
  simpl. subst v. rewrite max_step_same by exact H. exact IH.
Qed.

Lemma fold_min_same (c : float) (l : list float) : PrimFloat.is_nan c = false ->
  Forall (fun v => v = c) l -> fold_left Js.min_step l c = c.
Proof.
  intros H F. induction F as [|v l E F IH]; [reflexivity|].
  simpl. subst v. rewrite min_step_same by exact H. exact IH.
Qed.

(** [Math.max] and [Math.min] of a non-empty list of one finite value. *)
Lemma max_const (c : float) (l : list float) : PrimFloat.is_finite c = true ->
  l <> [] -> Forall (fun v => v = c) l -> Js.max l = c.
Proof.
  intros H Hne F. destruct F as [|v l E F]; [congruence|]. subst v.
  unfold Js.max. simpl. unfold Js.max_step at 2.
  rewrite (finite_not_nan c H), neg_infinity_lt by exact H. simpl.
  apply fold_max_same; [apply finite_not_nan|]; assumption.
Qed.

Lemma min_const (c : float) (l : list float) : PrimFloat.is_finite c = true ->
  l <> [] -> Forall (fun v => v = c) l -> Js.min l = c.
Proof.
  intros H Hne F. destruct F as [|v l E F]; [congruence|]. subst v.
  unfold Js.min. simpl. unfold Js.min_step at 2.
  rewrite (finite_not_nan c H), lt_infinity by exact H. simpl.
  apply fold_min_same; [apply finite_not_nan|]; assumption.
Qed.

Lemma digits2_pos_size (p : positive) : digits2_pos p = Pos.size p.
Proof. induction p; simpl; congruence. Qed.

Lemma digits2_iter_xO (p k : positive) :
  digits2_pos (Pos.iter xO p k) = (digits2_pos p + k)%positive.
Proof.
  induction k using Pos.peano_ind.
  - simpl. rewrite Pos.add_1_r. reflexivity.
  - rewrite Pos.iter_succ. simpl. rewrite IHk, Pos.add_succ_r. reflexivity.
Qed.

(** A 53-digit mantissa at a representable exponent is rounded to itself. *)
Lemma round_aux_exact (mz : positive) (ez : Z) :
  (Z.pos (digits2_pos mz) = 53)%Z -> (-1074 <= ez <= 971)%Z ->
  binary_round_aux prec emax false (Z.pos mz) ez loc_Exact = S754_finite false mz ez.
Proof.
  intros Hd He. unfold binary_round_aux, shr_fexp.
  cbn [Zdigits2]. rewrite Hd.
  replace (fexp prec emax (53 + ez) - ez) with 0
    by (unfold fexp, emin, prec, emax; lia).
  cbn [shr shr_record_of_loc shr_m loc_of_shr_record round_nearest_even Zdigits2].
  rewrite Hd.
  replace (fexp prec emax (53 + ez) - ez) with 0
    by (unfold fexp, emin, prec, emax; lia).
  cbn [shr shr_record_of_loc shr_m].
  replace (ez <=? emax - prec) with true by (symmetry; apply Z.leb_le; unfold emax, prec; lia).
  reflexivity.
Qed.

Lemma valid_53 (mz : positive) (ez : Z) :
  (Z.pos (digits2_pos mz) = 53)%Z -> (-1074 <= ez <= 971)%Z ->
  valid_binary (S754_finite false mz ez) = true.
Proof.
  intros Hd He. unfold valid_binary, bounded, canonical_mantissa.
  rewrite Hd. apply andb_true_intro. split; apply Z.eqb_eq || apply Z.leb_le;
    unfold fexp, emin, prec, emax; lia.
Qed.

(** The number value of a positive length below 2^53 is a positive
    finite number. *)
Lemma of_nat_finite (n : nat) : (0 < n)%nat -> (Z.of_nat n < 2 ^ 53)%Z ->
  exists m e, Prim2SF (Js.of_nat n) = S754_finite false m e.
Proof.
  intros Hpos Hlt. unfold Js.of_nat.
  destruct (Z.of_nat n) as [|p|p] eqn:En; [lia| |lia].
  unfold binary_normalize, binary_round.
  assert (Hs : (Pos.size p <= 53)%positive).
  { pose proof (Pos.size_le p) as L.
    assert (Z.pos (2 ^ Pos.size p) <= Z.pos p~0) as L' by exact L.
    rewrite Pos2Z.inj_pow in L'.
    assert (2 ^ Z.pos (Pos.size p) < 2 ^ 54) by (change (Z.pos p~0) with (2 * Z.pos p) in L'; lia).
    apply Z.pow_lt_mono_r_iff in H; lia. }
  rewrite digits2_pos_size.
  replace (fexp prec emax (Z.pos (Pos.size p) + 0)) with (Z.pos (Pos.size p) - 53)
    by (unfold fexp, emin, prec, emax; lia).
  unfold shl_align. rewrite Z.sub_0_r.
  destruct (Z.pos (Pos.size p) - 53) as [|k|k] eqn:Ek.
  - exists p, 0. rewrite round_aux_exact.
    + apply Prim2SF_SF2Prim. apply valid_53; [rewrite digits2_pos_size|]; lia.
    + rewrite digits2_pos_size. lia.
    + lia.
  - lia.
  - exists (Pos.iter xO p k), (Z.neg k). rewrite round_aux_exact.
    + apply Prim2SF_SF2Prim. apply valid_53; [|lia].
      rewrite digits2_iter_xO, Pos2Z.inj_add, digits2_pos_size. lia.
    + rewrite digits2_iter_xO, Pos2Z.inj_add, digits2_pos_size. lia.
    + lia.
Qed.

Lemma div_zero_of_nat (n : nat) : (0 < n)%nat -> (Z.of_nat n < 2 ^ 53)%Z ->
  (0 / Js.of_nat n = 0)%float.
Proof.
  intros H1 H2. destruct (of_nat_finite n H1 H2) as [m [e E]].
  apply Prim2SF_inj. rewrite div_spec, E. reflexivity.
Qed.

(** A division by zero is never a finite number. *)
Lemma div_zero_not_finite (x : float) : PrimFloat.is_finite (x / 0)%float = false.
Proof.
  assert (Prim2SF (x / 0)%float = S754_nan \/ exists s, Prim2SF (x / 0)%float = S754_infinity s) as [E | [s E]].
  { rewrite div_spec, Prim2SF_zero.
    destruct (Prim2SF x) as [s|s| |s m e]; simpl; eauto. }
  - apply is_nan_spec in E. unfold PrimFloat.is_finite. rewrite E. reflexivity.
  - unfold PrimFloat.is_finite, PrimFloat.is_infinity.
    rewrite (eqb_spec (PrimFloat.abs (x / 0)%float) infinity), abs_spec, E.
    destruct (PrimFloat.is_nan (x / 0)%float); destruct s; reflexivity.
Qed.

End FloatFacts.

(** ** Facts about the subgrouping *)
Module Subgroups.
Import SubgroupParts.

Lemma Forall_firstn {A} (P : A -> Prop) (k : nat) (l : list A) :
  Forall P l -> Forall P (firstn k l).
Proof.
  revert l; induction k as [|k IH]; intros l F; [constructor|].
  destruct F; simpl; constructor; auto.
Qed.

Lemma Forall_skipn {A} (P : A -> Prop) (k : nat) (l : list A) :
  Forall P l -> Forall P (skipn k l).
Proof.
  revert l; induction k as [|k IH]; intros l F; [exact F|].
  destruct F; simpl; [constructor|auto].
Qed.

Lemma chunks_fuel_Forall (P : float -> Prop) (fuel k : nat) (l : list float) :
  Forall P l -> Forall (fun g => Forall P g /\ g <> []) (chunks_fuel fuel (S k) l).
Proof.
  revert l; induction fuel as [|fuel IH]; intros l F; [constructor|].
  destruct l as [|x l]; [constructor|].
  simpl. constructor.
  - split; [|discriminate]. inversion F; subst. constructor; auto.
    apply Forall_firstn; auto.
  - apply IH. inversion F; subst. apply Forall_skipn; auto.
Qed.

Lemma chunks_fuel_length (fuel k : nat) (l : list float) :
  (length (chunks_fuel fuel k l) <= fuel)%nat.
Proof.
  revert l; induction fuel as [|fuel IH]; intros l; [simpl; lia|].
  destruct l; simpl; [lia|]. specialize (IH (skipn k (f :: l))). lia.
Qed.

Lemma chunks_length (k : nat) (l : list float) : (length (chunks k l) <= length l)%nat.
Proof. apply chunks_fuel_length. Qed.

(** At most one value per subgroup. *)
Lemma flat_map_le_one_length {A B} (f : A -> list B) (l : list A) :
  (forall a, length (f a) <= 1)%nat -> (length (flat_map f l) <= length l)%nat.
Proof.
  intro H. induction l as [|a l IH]; simpl; [lia|].
  rewrite length_app. specialize (H a). lia.
Qed.

Lemma flat_map_Forall {A B} (P : A -> Prop) (Q : B -> Prop) (f : A -> list B) (l : list A) :
  (forall a, P a -> Forall Q (f a)) -> Forall P l -> Forall Q (flat_map f l).
Proof.
  intros H F. induction F as [|a l Pa F IH]; simpl; [constructor|].
  apply Forall_app; auto.
Qed.

Lemma SpcUtils_movingRanges_length (l : list float) :
  (length (SpcUtils.movingRanges l) <= length l)%nat.
Proof.
  induction l as [|a l IH]; [simpl; lia|].
  destruct l as [|b l]; simpl in *; lia.
Qed.

Lemma Part000_movingRanges_length (l : list float) :
  (length (Part000.movingRanges l) <= length l)%nat.
Proof.
  induction l as [|a l IH]; [simpl; lia|].
  destruct l as [|b l]; [simpl; lia|].
  cbn [Part000.movingRanges]. destruct (Js.isFinite _); simpl in *; lia.
Qed.

Lemma part_fold (gs : list (list float)) (ms rs : list float) :
  fold_left (fun '(means, ranges) group =>
        if Nat.ltb 0 (length group) then
          (means ++ [match Part000.calculateMean group with Some m => m | None => 0%float end],
           ranges ++ [(Js.max group - Js.min group)%float])
        else (means, ranges)) gs (ms, rs)
  = (ms ++ flat_map part_mean gs, rs ++ flat_map part_range gs).
Proof.
  revert ms rs; induction gs as [|g gs IH]; intros ms rs; simpl.
  - rewrite !app_nil_r. reflexivity.
  - unfold part_mean, part_range. destruct (Nat.ltb 0 (length g)).
    + rewrite IH, <- !app_assoc. reflexivity.
    + rewrite IH. reflexivity.
Qed.

Lemma Part000_subgroups_chunks (ms : list float) (k : nat) :
  k <> 1%nat ->
  Part000.subgroups ms k = (flat_map part_mean (chunks k ms), flat_map part_range (chunks k ms)).
Proof.
  intro Hk. unfold Part000.subgroups. apply Nat.eqb_neq in Hk. rewrite Hk.
  rewrite part_fold. reflexivity.
Qed.

End Subgroups.

(** ** Zero spread: all-identical measurements *)
Module ZeroSpread.
Import SubgroupParts.
Import FloatFacts Subgroups.

Lemma abs_zero : Js.abs 0%float = 0%float.
Proof. reflexivity. Qed.

Lemma constants_cases (s : float) (k : nat) (cst : ChartConstants) :
  controlChartConstants s = Some (k, cst) ->
  (k = 1%nat /\ cst = {| A2 := 2.66; D3 := 0; D4 := 3.267; d2 := 1.128 |}) \/
  (k = 2%nat /\ cst = {| A2 := 1.88; D3 := 0; D4 := 3.267; d2 := 1.128 |}) \/
  (k = 3%nat /\ cst = {| A2 := 1.772; D3 := 0; D4 := 2.574; d2 := 1.693 |}) \/
  (k = 4%nat /\ cst = {| A2 := 0.796; D3 := 0; D4 := 2.282; d2 := 2.059 |}) \/
  (k = 5%nat /\ cst = {| A2 := 0.691; D3 := 0; D4 := 2.114; d2 := 2.326 |}).
Proof.
  unfold controlChartConstants.
  repeat match goal with |- context [if ?b then _ else _] => destruct b end;
    intro H; inversion H; subst; tauto.
Qed.

Lemma spc_movingRanges_zero (c : float) (l : list float) :
  PrimFloat.is_finite c = true -> Forall (fun v => v = c) l ->
  Forall (fun v => v = 0%float) (SpcUtils.movingRanges l).
Proof.
  intros Hc F. induction F as [|a l Ea F IH]; [constructor|].
  destruct F as [|b l Eb F']; [constructor|]. subst a b.
  cbn [SpcUtils.movingRanges]. constructor; [|exact IH].
  rewrite sub_self by exact Hc. reflexivity.
Qed.

Lemma part_movingRanges_zero (c : float) (l : list float) :
  PrimFloat.is_finite c = true -> Forall (fun v => v = c) l ->
  Forall (fun v => v = 0%float) (Part000.movingRanges l).
Proof.
  intros Hc F. induction F as [|a l Ea F IH]; [constructor|].
  destruct F as [|b l Eb F']; [constructor|]. subst a b.
  cbn [Part000.movingRanges]. rewrite sub_self by exact Hc.
  change (Js.isFinite (Js.abs 0)) with true. constructor; [reflexivity|exact IH].
Qed.

(** Every subgroup range of identical measurements is [c - c = 0]. *)
Lemma group_range_zero (c : float) (g : list float) :
  PrimFloat.is_finite c = true -> Forall (fun v => v = c) g -> g <> [] ->
  (Js.max g - Js.min g)%float = 0%float.
Proof.
  intros Hc F Hne. rewrite (max_const c), (min_const c) by assumption.
  apply sub_self; exact Hc.
Qed.

Lemma spc_ranges_zero (c : float) (ms : list float) (k : nat) :
  PrimFloat.is_finite c = true -> Forall (fun v => v = c) ms -> k <> O ->
  Forall (fun v => v = 0%float) (SpcUtils.calculateSubgroupRanges ms k) /\
  (length (SpcUtils.calculateSubgroupRanges ms k) <= length ms)%nat.
Proof.
  intros Hc F Hk. unfold SpcUtils.calculateSubgroupRanges.
  destruct (Nat.eqb k 1).
  - split; [apply (spc_movingRanges_zero c); assumption|apply SpcUtils_movingRanges_length].
  - destruct k as [|k]; [congruence|]. split.
    + apply (flat_map_Forall (fun g => Forall (fun v => v = c) g /\ g <> [])).
      * intros g [Fg Hne]. destruct (Nat.ltb 1 (length g)); [|constructor].
        constructor; [|constructor]. apply (group_range_zero c); assumption.
      * apply chunks_fuel_Forall; exact F.
    + etransitivity; [apply flat_map_le_one_length|apply chunks_length].
      intro g. destruct (Nat.ltb 1 (length g)); simpl; lia.
Qed.

Lemma part_ranges_zero (c : float) (ms : list float) (k : nat) :
  PrimFloat.is_finite c = true -> Forall (fun v => v = c) ms -> k <> O ->
  Forall (fun v => v = 0%float) (snd (Part000.subgroups ms k)) /\
  (length (snd (Part000.subgroups ms k)) <= length ms)%nat.
Proof.
  intros Hc F Hk. destruct (Nat.eq_dec k 1) as [->|Hk1].
  - cbn [Part000.subgroups Nat.eqb snd].
    split; [apply (part_movingRanges_zero c); assumption|apply Part000_movingRanges_length].
  - rewrite Part000_subgroups_chunks by exact Hk1. cbn [snd].
    destruct k as [|k]; [congruence|]. split.
    + apply (flat_map_Forall (fun g => Forall (fun v => v = c) g /\ g <> [])).
      * intros g [Fg Hne]. unfold part_range. destruct (Nat.ltb 0 (length g)); [|constructor].
        constructor; [|constructor]. apply (group_range_zero c); assumption.
      * apply chunks_fuel_Forall; exact F.
    + etransitivity; [apply flat_map_le_one_length|apply chunks_length].
      intro g. unfold part_range. destruct (Nat.ltb 0 (length g)); simpl; lia.
Qed.

Lemma sum_zeros (l : list float) : Forall (fun v => v = 0%float) l -> sum l = 0%float.
Proof.
  unfold sum. intro F. induction F as [|v l E F IH]; [reflexivity|].
  subst v. exact IH.
Qed.

Lemma spc_mean_zeros (l : list float) :
  Forall (fun v => v = 0%float) l -> (Z.of_nat (length l) < 2 ^ 53)%Z ->
  match SpcUtils.calculateMean l with Some m => m | None => 0%float end = 0%float.
Proof.
  intros F Hl. unfold SpcUtils.calculateMean.
  destruct l as [|x l]; [reflexivity|].
  rewrite sum_zeros by exact F. apply div_zero_of_nat; [simpl; lia|exact Hl].
Qed.

Lemma filter_finite_zeros (l : list float) :
  Forall (fun v => v = 0%float) l -> filter Js.isFinite l = l.
Proof.
  intro F. induction F as [|v l E F IH]; [reflexivity|]. subst v.
  simpl. rewrite IH. reflexivity.
Qed.

Lemma part_mean_zeros (l : list float) :
  Forall (fun v => v = 0%float) l -> (Z.of_nat (length l) < 2 ^ 53)%Z ->
  match Part000.calculateMean l with Some m => m | None => 0%float end = 0%float.
Proof.
  intros F Hl. unfold Part000.calculateMean.
  destruct l as [|x l]; [reflexivity|].
  rewrite filter_finite_zeros by exact F.
  rewrite sum_zeros by exact F. apply div_zero_of_nat; [simpl; lia|exact Hl].
Qed.

Lemma min_step_cases (acc x : float) :
  Js.min_step acc x = nan \/ Js.min_step acc x = acc \/ Js.min_step acc x = x.
Proof.
  unfold Js.min_step.
  repeat match goal with |- context [if ?b then _ else _] => destruct b end; auto.
Qed.

(** [Math.min] of two numbers that are not finite is not finite. *)
Lemma min2_not_finite (a b : float) :
  PrimFloat.is_finite a = false -> PrimFloat.is_finite b = false ->
  PrimFloat.is_finite (Js.min2 a b) = false.
Proof.
  intros Ha Hb. unfold Js.min2, Js.min. simpl.
  destruct (min_step_cases (Js.min_step infinity a) b) as [E|[E|E]]; rewrite E; auto.
  destruct (min_step_cases infinity a) as [E'|[E'|E']]; rewrite E'; auto.
Qed.

End ZeroSpread.

(** ** Helpers on the validated measurement series *)
Module Series.

Lemma Forall_filter_map {A B} (P : B -> Prop) (f : B -> bool) (g : A -> B) (l : list A) :
  Forall (fun d => P (g d)) l -> Forall P (filter f (map g l)).
Proof.
  intro F. induction F as [|a l Ha F IH]; [constructor|].
  simpl. destruct (f (g a)); [constructor|]; assumption.
Qed.

Lemma Forall_map_filter {A B} (P : B -> Prop) (f : A -> bool) (g : A -> B) (l : list A) :
  Forall (fun d => P (g d)) l -> Forall P (map g (filter f l)).
Proof.
  intro F. induction F as [|a l Ha F IH]; [constructor|].
  simpl. destruct (f a); [constructor|]; assumption.
Qed.

Lemma length_filter_map_le {A B} (f : B -> bool) (g : A -> B) (l : list A) :
  (length (filter f (map g l)) <= length l)%nat.
Proof.
  induction l as [|a l IH]; [reflexivity|]. simpl. destruct (f (g a)); simpl; lia.
Qed.

Lemma length_map_filter_le {A B} (f : A -> bool) (g : A -> B) (l : list A) :
  (length (map g (filter f l)) <= length l)%nat.
Proof.
  rewrite length_map. induction l as [|a l IH]; [reflexivity|].
  simpl. destruct (f a); simpl; lia.
Qed.

Lemma inr_eq {A B} (a b : B) : @inr A B a = inr b -> b = a.
Proof. congruence. Qed.

Lemma d2_div_zero (s : float) (k : nat) (cst : ChartConstants) :
  controlChartConstants s = Some (k, cst) -> (0 / d2 cst = 0)%float /\ k <> O.
Proof.
  intro H. apply ZeroSpread.constants_cases in H.
  destruct H as [[-> ->]|[[-> ->]|[[-> ->]|[[-> ->]|[-> ->]]]]];
    split; try reflexivity; discriminate.
Qed.

End Series.

(** ** Lengths as numbers, and the sample size *)
Module NatFloat.
Import FloatFacts.

Lemma iter_xO_Z (p k : positive) : Z.pos (Pos.iter xO p k) = Z.pos p * 2 ^ Z.pos k.
Proof.
  induction k as [|k IH] using Pos.peano_ind.
  - simpl. lia.
  - rewrite Pos.iter_succ, Pos2Z.inj_succ, Z.pow_succ_r by lia.
    change (Z.pos (Pos.iter xO p k)~0) with (2 * Z.pos (Pos.iter xO p k)). rewrite IH. ring.
Qed.

Lemma size_le_53 (p : positive) : Z.pos p < 2 ^ 53 -> (Pos.size p <= 53)%positive.
Proof.
  intro Hlt. pose proof (Pos.size_le p) as L.
  assert (Z.pos (2 ^ Pos.size p) <= Z.pos p~0) as L' by exact L.
  rewrite Pos2Z.inj_pow in L'.
  assert (2 ^ Z.pos (Pos.size p) < 2 ^ 54) by (change (Z.pos p~0) with (2 * Z.pos p) in L'; lia).
  apply Z.pow_lt_mono_r_iff in H; lia.
Qed.

(** The exact representation of a positive integer below 2^53. *)
Lemma of_nat_repr (n : nat) (p : positive) : Z.of_nat n = Z.pos p -> Z.pos p < 2 ^ 53 ->
  exists m, Prim2SF (Js.of_nat n) = S754_finite false m (Z.pos (Pos.size p) - 53) /\
            Z.pos m = Z.pos p * 2 ^ (53 - Z.pos (Pos.size p)).
Proof.
  intros En Hlt. unfold Js.of_nat. rewrite En.
  unfold binary_normalize, binary_round.
  pose proof (size_le_53 p Hlt) as Hs.
  rewrite digits2_pos_size.
  replace (fexp prec emax (Z.pos (Pos.size p) + 0)) with (Z.pos (Pos.size p) - 53)
    by (unfold fexp, emin, prec, emax; lia).
  unfold shl_align. rewrite Z.sub_0_r.
  destruct (Z.pos (Pos.size p) - 53) as [|k|k] eqn:Ek.
  - exists p. rewrite round_aux_exact.
    + split; [apply Prim2SF_SF2Prim; apply valid_53; [rewrite digits2_pos_size|]; lia|].
      replace (53 - Z.pos (Pos.size p)) with 0 by lia. ring.
    + rewrite digits2_pos_size. lia.
    + lia.
  - lia.
  - exists (Pos.iter xO p k). rewrite round_aux_exact.
    + split.
      * apply Prim2SF_SF2Prim. apply valid_53; [|lia].
        rewrite digits2_iter_xO, Pos2Z.inj_add, digits2_pos_size. lia.
      * rewrite iter_xO_Z. f_equal. f_equal. lia.
    + rewrite digits2_iter_xO, Pos2Z.inj_add, digits2_pos_size. lia.
    + lia.
Qed.

Lemma size_lt_lt (p q : positive) : (Pos.size p < Pos.size q)%positive -> Z.pos p < Z.pos q.
Proof.
  intro H.
  pose proof (Pos.size_gt p) as Gp. pose proof (Pos.size_le q) as Lq.
  assert (A : Z.pos p < 2 ^ Z.pos (Pos.size p)) by (rewrite <- Pos2Z.inj_pow; exact Gp).
  assert (B : 2 ^ Z.pos (Pos.size q) <= 2 * Z.pos q) by (rewrite <- Pos2Z.inj_pow; exact Lq).
  assert (C : 2 ^ (Z.pos (Pos.size p) + 1) <= 2 ^ Z.pos (Pos.size q))
    by (apply Z.pow_le_mono_r; lia).
  rewrite Z.pow_add_r in C by lia. lia.
Qed.

Lemma compare_of_nat_pos (a b : nat) : (0 < a)%nat -> (0 < b)%nat ->
  (Z.of_nat a < 2 ^ 53) -> (Z.of_nat b < 2 ^ 53) ->
  SFcompare (Prim2SF (Js.of_nat a)) (Prim2SF (Js.of_nat b)) = Some (Nat.compare a b).
Proof.
  intros Ha Hb La Lb.
  destruct (Z.of_nat a) as [|pa|pa] eqn:Ea; [lia| |lia].
  destruct (Z.of_nat b) as [|pb|pb] eqn:Eb; [lia| |lia].
  destruct (of_nat_repr a pa Ea La) as [ma [Ra Ma]].
  destruct (of_nat_repr b pb Eb Lb) as [mb [Rb Mb]].
  rewrite Ra, Rb. cbn [SFcompare]. f_equal.
  rewrite <- Nat2Z.inj_compare, Ea, Eb.
  pose proof (size_le_53 pa La). pose proof (size_le_53 pb Lb).
  destruct (Pos.compare_spec (Pos.size pa) (Pos.size pb)) as [E|L|G].
  - rewrite E, Z.compare_refl. change (Pos.compare_cont Eq ma mb) with (Pos.compare ma mb).
    rewrite Pos2Z.inj_compare, Ma, Mb, E.
    symmetry. apply Zmult_compare_compat_r. apply Z.lt_gt, Z.pow_pos_nonneg; lia.
  - pose proof (size_lt_lt _ _ L).
    replace (Z.pos (Pos.size pa) - 53 ?= Z.pos (Pos.size pb) - 53) with Lt by (symmetry; apply Z.compare_lt_iff; lia).
    symmetry. apply Z.compare_lt_iff. lia.
  - pose proof (size_lt_lt _ _ G).
    replace (Z.pos (Pos.size pa) - 53 ?= Z.pos (Pos.size pb) - 53) with Gt by (symmetry; apply Z.compare_gt_iff; lia).
    symmetry. apply Z.compare_gt_iff. lia.
Qed.

Lemma of_nat_zero : Js.of_nat 0 = 0%float.
Proof. reflexivity. Qed.

Lemma lt_of_nat (a b : nat) : (Z.of_nat a < 2 ^ 53) -> (Z.of_nat b < 2 ^ 53) ->
  Js.lt (Js.of_nat a) (Js.of_nat b) = Nat.ltb a b.
Proof.
  intros La Lb. unfold Js.lt. rewrite ltb_spec.
  destruct a as [|a'], b as [|b'].
  - reflexivity.
  - destruct (of_nat_finite (S b') ltac:(lia) Lb) as [m [e E]].
    rewrite of_nat_zero, Prim2SF_zero, E. reflexivity.
  - destruct (of_nat_finite (S a') ltac:(lia) La) as [m [e E]].
    rewrite of_nat_zero, Prim2SF_zero, E. reflexivity.
  - unfold SFltb. rewrite compare_of_nat_pos by lia.
    destruct (Nat.compare_spec (S a') (S b')) as [E|L|G].
    + rewrite E. symmetry. apply Nat.ltb_irrefl.
    + symmetry. apply Nat.ltb_lt. exact L.
    + symmetry. apply Nat.ltb_ge. lia.
Qed.

(** A number equal ([===]) to a positive finite number is that number. *)
Lemma eqb_finite_pos (s c : float) (m : positive) (e : Z) :
  Prim2SF c = S754_finite false m e -> PrimFloat.eqb s c = true -> s = c.
Proof.
  intros Ec H. rewrite eqb_spec, Ec in H. unfold SFeqb in H.
  apply Prim2SF_inj. rewrite Ec.
  destruct (Prim2SF s) as [s'|s'| |s' m' e']; try destruct s'; simpl in H; try discriminate.
  destruct (e' ?= e) eqn:Ee; try discriminate. apply Z.compare_eq in Ee. subst e'.
  change (Pos.compare_cont Eq m' m) with (Pos.compare m' m) in H.
  destruct (Pos.compare m' m) eqn:Em; try discriminate. apply Pos.compare_eq in Em.
  subst m'. reflexivity.
Qed.

Lemma sample_size_of_nat (s : float) (k : nat) (cst : ChartConstants) :
  controlChartConstants s = Some (k, cst) -> s = Js.of_nat k /\ (1 <= k <= 5)%nat.
Proof.
  unfold controlChartConstants.
  destruct (PrimFloat.eqb s 1) eqn:E1;
    [intro H; injection H as <- <-; split; [|lia]; apply (eqb_finite_pos s _ 4503599627370496 (-52)); [reflexivity|exact E1]|].
  destruct (PrimFloat.eqb s 2) eqn:E2;
    [intro H; injection H as <- <-; split; [|lia]; apply (eqb_finite_pos s _ 4503599627370496 (-51)); [reflexivity|exact E2]|].
  destruct (PrimFloat.eqb s 3) eqn:E3;
    [intro H; injection H as <- <-; split; [|lia]; apply (eqb_finite_pos s _ 6755399441055744 (-51)); [reflexivity|exact E3]|].
  destruct (PrimFloat.eqb s 4) eqn:E4;
    [intro H; injection H as <- <-; split; [|lia]; apply (eqb_finite_pos s _ 4503599627370496 (-50)); [reflexivity|exact E4]|].
  destruct (PrimFloat.eqb s 5) eqn:E5;
    [intro H; injection H as <- <-; split; [|lia]; apply (eqb_finite_pos s _ 5629499534213120 (-50)); [reflexivity|exact E5]|].
  discriminate.
Qed.

End NatFloat.

(** ** The outcome of a call: error or result *)
Module Outcome.
Import NatFloat.

Lemma count_filter_le {A B} (f : B -> bool) (g : A -> B) (l : list A) :
  (length (filter f (map g l)) <= length l)%nat.
Proof. apply Series.length_filter_map_le. Qed.

Lemma count_filter_le' {A} (f : A -> bool) (l : list A) : (length (filter f l) <= length l)%nat.
Proof.
  induction l as [|a l IH]; [reflexivity|]. simpl. destruct (f a); simpl; lia.
Qed.

Lemma spc_outcome (inspectionData : list InspectionData) (sampleSize : float) :
  (Z.of_nat (length inspectionData) < 2 ^ 53)%Z ->
  let count := length (filter (fun m => negb (Js.isNaN m))
                 (map (fun d => parseFloat (ActualSpecification d)) inspectionData)) in
  match controlChartConstants sampleSize with
  | None => SpcUtils.calculateAnalysisData inspectionData sampleSize = inl InvalidSampleSize
  | Some (k, _) =>
      if Nat.ltb count k
      then SpcUtils.calculateAnalysisData inspectionData sampleSize = inl InsufficientData
      else exists r, SpcUtils.calculateAnalysisData inspectionData sampleSize = inr r
  end.
Proof.
  intros L count. unfold SpcUtils.calculateAnalysisData.
  destruct (controlChartConstants sampleSize) as [[k cst]|] eqn:Hc; [|reflexivity].
  destruct (sample_size_of_nat _ _ _ Hc) as [-> Hk].
  pose proof (count_filter_le (fun m => negb (Js.isNaN m))
                (fun d => parseFloat (ActualSpecification d)) inspectionData).
  rewrite lt_of_nat by lia. fold count.
  destruct (Nat.ltb count k) eqn:E; [reflexivity|].
  destruct inspectionData as [|d0 rest]; [|eexists; reflexivity].
  apply Nat.ltb_ge in E. subst count. simpl in E. lia.
Qed.

Lemma part_outcome (inspectionData : list InspectionData) (sampleSize : float) :
  (Z.of_nat (length inspectionData) < 2 ^ 53)%Z ->
  let count := length (filter Part000.valid inspectionData) in
  match controlChartConstants sampleSize with
  | None => Part000.calculateAnalysisData inspectionData sampleSize = inl InvalidSampleSize
  | Some (k, _) =>
      if Nat.ltb count k
      then Part000.calculateAnalysisData inspectionData sampleSize = inl InsufficientData
      else exists r, Part000.calculateAnalysisData inspectionData sampleSize = inr r
  end.
Proof.
  intros L count. unfold Part000.calculateAnalysisData.
  destruct (controlChartConstants sampleSize) as [[k cst]|] eqn:Hc; [|reflexivity].
  destruct (sample_size_of_nat _ _ _ Hc) as [-> Hk].
  pose proof (count_filter_le' Part000.valid inspectionData).
  rewrite length_map, lt_of_nat by lia. fold count.
  destruct (Nat.ltb count k) eqn:E; [reflexivity|].
  destruct (filter Part000.valid inspectionData) as [|d0 rest] eqn:Ev;
    [|destruct (Part000.subgroups _ _); eexists; reflexivity].
  apply Nat.ltb_ge in E. subst count. simpl in E. lia.
Qed.

Lemma outcome_reports (result : AnalysisError + AnalysisData) (sampleSize : float) (count : nat) :
  match controlChartConstants sampleSize with
  | None => result = inl InvalidSampleSize
  | Some (k, _) =>
      if Nat.ltb count k then result = inl InsufficientData else exists r, result = inr r
  end ->
  SpecSide.reports_errors result sampleSize count.
Proof.
  unfold SpecSide.reports_errors.
  destruct (controlChartConstants sampleSize) as [[k cst]|] eqn:Hc; intro H.
  - destruct (Nat.ltb count k) eqn:E.
    + subst result. split; [split; discriminate|]. split.
      * split; [intros _; exists k, cst; split; [reflexivity|apply Nat.ltb_lt; exact E]|reflexivity].
      * intros e He. injection He as <-. right. reflexivity.
    + destruct H as [r ->]. split; [split; discriminate|]. split.
      * split; [discriminate|]. intros (k' & cst' & Hs & Hl). injection Hs as -> ->.
        apply Nat.ltb_lt in Hl. congruence.
      * intros e He. discriminate.
  - subst result. split; [split; reflexivity|]. split.
    + split; [discriminate|]. intros (k' & cst' & Hs & _). discriminate.
    + intros e He. injection He as <-. left. reflexivity.
Qed.

(** A sample size with a table entry is one of 1 to 5, and conversely. *)
Lemma constants_none (sampleSize : float) :
  controlChartConstants sampleSize = None <->
  (forall k, (1 <= k <= 5)%nat -> sampleSize <> Js.of_nat k).
Proof.
  split.
  - intros H k Hk E. subst sampleSize.
    destruct k as [|[|[|[|[|[|k]]]]]]; try lia; vm_compute in H; discriminate.
  - intros H. destruct (controlChartConstants sampleSize) as [[k cst]|] eqn:Hc; [|reflexivity].
    destruct (sample_size_of_nat _ _ _ Hc) as [E Hk]. exfalso. exact (H k Hk E).
Qed.

End Outcome.

(** ** Zero spread: the capability indices of each implementation *)
Module ZeroSpreadResults.
Import FloatFacts.

Lemma if_same_float (b : bool) (x : float) : (if b then x else x) = x.
Proof. destruct b; reflexivity. Qed.

Lemma spc_zero_spread (inspectionData : list InspectionData) (sampleSize c : float) :
  PrimFloat.is_finite c = true ->
  Forall (fun d => parseFloat (ActualSpecification d) = c) inspectionData ->
  (Z.of_nat (length inspectionData) < 2 ^ 53) ->
  forall r, SpcUtils.calculateAnalysisData inspectionData sampleSize = inr r ->
     withinStdDev r = 0%float /\
     cp r = ((r_usl r - r_lsl r) / (6 * 0.000001))%float /\
     cpu r = ((r_usl r - grandMean r) / (3 * 0.000001))%float /\
     cpl r = ((grandMean r - r_lsl r) / (3 * 0.000001))%float /\
     cpk r = Js.min2 (cpu r) (cpl r).
Proof.
  intros Hc F Hl r H. unfold SpcUtils.calculateAnalysisData in H.
  destruct (controlChartConstants sampleSize) as [[k cst]|] eqn:Hk; [|discriminate].
  destruct (Series.d2_div_zero _ _ _ Hk) as [Hd Hk0].
  set (ms := filter _ _) in H.
  assert (Fm : Forall (fun v => v = c) ms) by (apply Series.Forall_filter_map; exact F).
  assert (Lm : (length ms <= length inspectionData)%nat) by apply Series.length_filter_map_le.
  destruct (ZeroSpread.spc_ranges_zero c ms k Hc Fm Hk0) as [Fr Lr].
  rewrite (ZeroSpread.spc_mean_zeros _ Fr) in H by lia.
  rewrite Hd in H.
  destruct (Js.lt _ _); [discriminate|].
  destruct inspectionData as [|d0 rest]; [discriminate|].
  cbv zeta in H. injection H as <-. cbn. repeat split.
Qed.

Lemma part_zero_spread (inspectionData : list InspectionData) (sampleSize c : float) :
  PrimFloat.is_finite c = true ->
  Forall (fun d => parseFloat (ActualSpecification d) = c) inspectionData ->
  (Z.of_nat (length inspectionData) < 2 ^ 53) ->
  forall r, Part000.calculateAnalysisData inspectionData sampleSize = inr r ->
     withinStdDev r = 0%float /\
     PrimFloat.is_finite (cp r) = false /\ PrimFloat.is_finite (cpu r) = false /\
     PrimFloat.is_finite (cpl r) = false /\ PrimFloat.is_finite (cpk r) = false.
Proof.
  intros Hc F Hl r H. unfold Part000.calculateAnalysisData in H.
  destruct (controlChartConstants sampleSize) as [[k cst]|] eqn:Hk; [|discriminate].
  destruct (Series.d2_div_zero _ _ _ Hk) as [Hd Hk0].
  set (ms := map _ _) in H.
  assert (Fm : Forall (fun v => v = c) ms) by (apply Series.Forall_map_filter; exact F).
  assert (Lm : (length ms <= length inspectionData)%nat) by apply Series.length_map_filter_le.
  destruct (ZeroSpread.part_ranges_zero c ms k Hc Fm Hk0) as [Fr Lr].
  destruct (Part000.subgroups ms k) as [means ranges] eqn:Hs. cbn [snd] in Fr, Lr.
  rewrite (ZeroSpread.part_mean_zeros _ Fr) in H by lia.
  rewrite Hd in H. rewrite (if_same_float (Nat.eqb k 1)) in H.
  destruct (Js.lt _ _); [discriminate|].
  destruct (filter Part000.valid inspectionData) as [|d0 rest]; [discriminate|].
  cbv zeta in H. injection H as <-. cbn.
  change (6 * 0)%float with 0%float. change (3 * 0)%float with 0%float.
  rewrite !FloatFacts.div_zero_not_finite.
  repeat split. apply ZeroSpread.min2_not_finite; apply FloatFacts.div_zero_not_finite.
Qed.

End ZeroSpreadResults.

(** ** The records kept by part_000 *)
Module Retained.

Lemma filter_valid_Forall (l : list InspectionData) :
  Forall (fun d => Js.isFinite (parseFloat (ActualSpecification d)) = true /\
                   Js.isFinite (parseFloat (FromSpecification d)) = true /\
                   Js.isFinite (parseFloat (ToSpecification d)) = true)
    (filter Part000.valid l).
Proof.
  induction l as [|d l IH]; [constructor|]. simpl.
  destruct (Part000.valid d) eqn:V; [|exact IH].
  unfold Part000.valid in V. apply andb_prop in V as [V V3]. apply andb_prop in V as [V1 V2].
  constructor; [tauto|exact IH].
Qed.

Lemma map_finite_id (l : list InspectionData) :
  Forall (fun d => Js.isFinite (parseFloat (ActualSpecification d)) = true /\
                   Js.isFinite (parseFloat (FromSpecification d)) = true /\
                   Js.isFinite (parseFloat (ToSpecification d)) = true) l ->
  map (fun v => if Js.isFinite v then v else 0%float)
    (map (fun d => parseFloat (ActualSpecification d)) l) =
  map (fun d => parseFloat (ActualSpecification d)) l.
Proof.
  intro F. induction F as [|d l [Ha _] F IH]; [reflexivity|].
  simpl. rewrite Ha. f_equal. exact IH.
Qed.

End Retained.

(** ** The overall standard deviation *)
Module Overall.
Import NatFloat.

Lemma filter_finite_id (l : list float) :
  Forall (fun v => Js.isFinite v = true) l -> filter Js.isFinite l = l.
Proof.
  intro F. induction F as [|v l Hv F IH]; [reflexivity|]. simpl. rewrite Hv, IH. reflexivity.
Qed.

Lemma spc_mean_ne (l : list float) :
  l <> [] -> SpcUtils.calculateMean l = Some (sum l / Js.of_nat (length l))%float.
Proof. destruct l; [congruence|reflexivity]. Qed.

Lemma part_mean_finite (l : list float) :
  l <> [] -> Forall (fun v => Js.isFinite v = true) l ->
  Part000.calculateMean l = Some (sum l / Js.of_nat (length l))%float.
Proof.
  intros Hne F. unfold Part000.calculateMean. rewrite (filter_finite_id _ F).
  destruct l; [congruence|reflexivity].
Qed.

Lemma map_ne {A B} (f : A -> B) (l : list A) : l <> [] -> map f l <> [].
Proof. destruct l; [congruence|discriminate]. Qed.

Lemma part_stdDev (ms : list float) (m : float) :
  ms <> [] -> Forall (fun x => Js.isFinite (Js.pow2 (x - m)) = true) ms ->
  Part000.calculateStdDev ms (Some m) = Some (SpecSide.populationStdDev m ms).
Proof.
  intros Hne F. unfold SpecSide.populationStdDev.
  assert (Fm : Forall (fun v => Js.isFinite v = true) (map (fun v => Js.pow2 (v - m)) ms))
    by (apply Forall_map; exact F).
  destruct ms as [|x xs]; [congruence|]. unfold Part000.calculateStdDev. cbv beta iota.
  rewrite (filter_finite_id _ Fm).
  rewrite part_mean_finite by (exact Fm || (apply map_ne; exact Hne)).
  rewrite length_map. reflexivity.
Qed.

Lemma spc_stdDev (ms : list float) :
  ms <> [] ->
  SpcUtils.calculateStdDev ms None =
  Some (SpecSide.populationStdDev
          (match SpcUtils.calculateMean ms with Some m => m | None => 0%float end) ms).
Proof.
  intros Hne. unfold SpecSide.populationStdDev.
  rewrite (spc_mean_ne ms Hne).
  destruct ms as [|x xs]; [congruence|]. unfold SpcUtils.calculateStdDev. cbv beta iota.
  rewrite (spc_mean_ne (x :: xs) Hne). cbv beta iota.
  rewrite spc_mean_ne by (apply map_ne; exact Hne).
  rewrite length_map. reflexivity.
Qed.

End Overall.

(** ** Runs of consecutive points

    [has_streak p n xs] of the run rules, read through the counters of the
    two run loops: the trailing run of a prefix and its longest run. *)
Module Streaks.
Import SpecSide.

Section Streaks.
Variable p : float -> bool.

Local Abbreviation ends l n :=
  (exists u v, l = u ++ v /\ length v = n :> nat /\ forallb p v = true).

Lemma snoc_split (l a mid post : list float) (y : float) :
  l ++ [y] = a ++ mid ++ post -> post <> [] ->
  exists post', post = post' ++ [y] /\ l = a ++ mid ++ post'.
Proof.
  intros E Hne. destruct (exists_last Hne) as (post' & z & ->).
  rewrite !app_assoc in E. apply app_inj_tail in E as [E ->].
  exists post'. split; [reflexivity|]. rewrite E, !app_assoc. reflexivity.
Qed.

Lemma has_streak_nil (n : nat) : has_streak p n [] <-> n = O.
Proof.
  split.
  - intros (pre & mid & post & E & L & _). symmetry in E.
    apply app_eq_nil in E as [_ E]. apply app_eq_nil in E as [-> _]. simpl in L. lia.
  - intros ->. exists [], [], []. repeat split.
Qed.

(** A streak of [l ++ [y]] lies in [l] or ends at [y]. *)
Lemma has_streak_snoc (n : nat) (l : list float) (y : float) :
  has_streak p n (l ++ [y]) <->
  has_streak p n l \/
  (exists u v, l ++ [y] = u ++ v /\ length v = n :> nat /\ forallb p v = true).
Proof.
  split.
  - intros (a & mid & post & E & L & F). destruct post as [|z post'].
    + right. exists a, mid. rewrite app_nil_r in E. auto.
    + left. destruct (snoc_split l a mid (z :: post') y E ltac:(discriminate)) as (q & _ & El).
      exists a, mid, q. auto.
  - intros [(a & mid & post & E & L & F)|(u & v & E & L & F)].
    + exists a, mid, (post ++ [y]). rewrite E, !app_assoc. auto.
    + exists u, v, []. rewrite app_nil_r. auto.
Qed.

Lemma ends_zero (l : list float) : ends l 0%nat.
Proof. exists l, []. rewrite app_nil_r. auto. Qed.

Lemma ends_nil_S (n : nat) : ~ ends [] (S n).
Proof.
  intros (u & v & E & L & _). symmetry in E. apply app_eq_nil in E as [_ ->]. discriminate.
Qed.

(** The trailing streak of [l ++ [y]]. *)
Lemma ends_snoc_S (n : nat) (l : list float) (y : float) :
  ends (l ++ [y]) (S n) <-> p y = true /\ ends l n.
Proof.
  split.
  - intros (u & v & E & L & F). destruct v as [|z v'] using rev_ind; [discriminate|].
    clear IHv'. rewrite app_assoc in E. apply app_inj_tail in E as [E ->].
    rewrite forallb_app in F. apply andb_prop in F as [F Fy]. simpl in Fy.
    rewrite andb_true_r in Fy. split; [exact Fy|].
    exists u, v'. rewrite length_app in L. simpl in L. repeat split; auto; lia.
  - intros [Hy (u & v & E & L & F)].
    exists u, (v ++ [y]). rewrite E, app_assoc. repeat split.
    + rewrite length_app, L. simpl. lia.
    + rewrite forallb_app, F. simpl. rewrite Hy. reflexivity.
Qed.

(** [c] is the length of the trailing streak of [l]. *)
Lemma trailing_nil : forall n, ends [] n <-> (n <= 0)%nat.
Proof.
  intros [|n]; split; intro H; [lia|apply ends_zero|exfalso; exact (ends_nil_S n H)|lia].
Qed.

Lemma trailing_step (l : list float) (c : nat) (y : float) :
  (forall n, ends l n <-> (n <= c)%nat) ->
  forall n, ends (l ++ [y]) n <-> (n <= if p y then S c else 0)%nat.
Proof.
  intros T [|n]; [split; intros; [lia|apply ends_zero]|].
  rewrite ends_snoc_S, T. destruct (p y); split; intros H;
    try lia; try (split; [reflexivity|lia]); destruct H; discriminate.
Qed.

(** [m] is the length of the longest streak of [l]. *)
Lemma longest_nil : forall n, has_streak p n [] <-> (n <= 0)%nat.
Proof. intro n. rewrite has_streak_nil. lia. Qed.

Lemma longest_step (l : list float) (c m : nat) (y : float) :
  (forall n, ends l n <-> (n <= c)%nat) ->
  (forall n, has_streak p n l <-> (n <= m)%nat) ->
  forall n, has_streak p n (l ++ [y]) <-> (n <= Nat.max m (if p y then S c else 0))%nat.
Proof.
  intros T L n. rewrite has_streak_snoc, L, (trailing_step l c y T n). lia.
Qed.

Lemma stability_label (x : nat) (b : bool) :
  (label (Nat.eqb x 0 && negb b) "Stable" "Unstable" = "Stable"%string <->
   x = O /\ label b "Yes" "No" = "No"%string) /\
  (label (Nat.eqb x 0 && negb b) "Stable" "Unstable" <> "Stable"%string ->
   label (Nat.eqb x 0 && negb b) "Stable" "Unstable" = "Unstable"%string).
Proof.
  destruct (Nat.eqb_spec x 0) as [->|E], b; cbn; split; try split;
    intros; try tauto; try congruence; destruct H; congruence.
Qed.

End Streaks.

Abbreviation ends_p p l n :=
  (exists u v, l = u ++ v /\ length v = n :> nat /\ forallb p v = true).

Lemma app_cons_snoc {A} (pre : list A) (y : A) (ys : list A) : pre ++ y :: ys = (pre ++ [y]) ++ ys.
Proof. rewrite <- app_assoc. reflexivity. Qed.

Lemma SFcompare_swap (a b : spec_float) :
  SFcompare b a = option_map CompOpp (SFcompare a b).
Proof.
  destruct a as [sa|sa| |sa ma ea], b as [sb|sb| |sb mb eb];
    try destruct sa; try destruct sb; simpl; try reflexivity;
    rewrite (Z.compare_antisym ea eb); destruct (ea ?= eb)%Z; simpl; try reflexivity;
    change (Pos.compare_cont Eq mb ma) with (Pos.compare mb ma);
    change (Pos.compare_cont Eq ma mb) with (Pos.compare ma mb);
    rewrite (Pos.compare_antisym ma mb); destruct (Pos.compare ma mb); reflexivity.
Qed.

Lemma gt_not_lt (x y : float) : Js.gt x y = true -> Js.lt x y = false.
Proof.
  unfold Js.gt, Js.lt. rewrite !ltb_spec. unfold SFltb. rewrite (SFcompare_swap (Prim2SF y)).
  destruct (SFcompare (Prim2SF y) (Prim2SF x)) as [[]|]; simpl; congruence.
Qed.

Lemma spc_run_step (gm : float) (prev : option float) (st : SpcUtils.RunState) (y : float) :
  let st' := SpcUtils.run_step gm prev st y in
  SpcUtils.consecutiveAboveMean st' =
    (if Js.gt y gm then S (SpcUtils.consecutiveAboveMean st) else 0)%nat /\
  SpcUtils.maxConsecutiveAbove st' =
    Nat.max (SpcUtils.maxConsecutiveAbove st)
      (if Js.gt y gm then S (SpcUtils.consecutiveAboveMean st) else 0) /\
  SpcUtils.consecutiveBelowMean st' =
    (if Js.lt y gm then S (SpcUtils.consecutiveBelowMean st) else 0)%nat /\
  SpcUtils.maxConsecutiveBelow st' =
    Nat.max (SpcUtils.maxConsecutiveBelow st)
      (if Js.lt y gm then S (SpcUtils.consecutiveBelowMean st) else 0).
Proof.
  destruct st as [cA cB mA mB cI cD]. unfold SpcUtils.run_step.
  destruct (Js.gt y gm) eqn:G.
  - rewrite (gt_not_lt _ _ G).
    destruct prev as [p0|]; [destruct (Js.gt y p0), (Js.lt y p0)|]; cbn; repeat split; lia.
  - destruct (Js.lt y gm);
      (destruct prev as [p0|]; [destruct (Js.gt y p0), (Js.lt y p0)|]; cbn; repeat split; lia).
Qed.

Lemma spc_run_loop (gm : float) (ys : list float) :
  forall prev st pre,
  (forall n, ends_p (fun y => Js.gt y gm) pre n <-> (n <= SpcUtils.consecutiveAboveMean st)%nat) ->
  (forall n, has_streak (fun y => Js.gt y gm) n pre <-> (n <= SpcUtils.maxConsecutiveAbove st)%nat) ->
  (forall n, ends_p (fun y => Js.lt y gm) pre n <-> (n <= SpcUtils.consecutiveBelowMean st)%nat) ->
  (forall n, has_streak (fun y => Js.lt y gm) n pre <-> (n <= SpcUtils.maxConsecutiveBelow st)%nat) ->
  let st' := SpcUtils.run_loop gm prev st ys in
  (forall n, has_streak (fun y => Js.gt y gm) n (pre ++ ys) <->
             (n <= SpcUtils.maxConsecutiveAbove st')%nat) /\
  (forall n, has_streak (fun y => Js.lt y gm) n (pre ++ ys) <->
             (n <= SpcUtils.maxConsecutiveBelow st')%nat).
Proof.
  induction ys as [|y ys IH]; intros prev st pre TA LA TB LB st'.
  - rewrite app_nil_r. split; assumption.
  - subst st'. cbn [SpcUtils.run_loop].
    rewrite (app_cons_snoc pre y ys).
    destruct (spc_run_step gm prev st y) as (EA & MA & EB & MB).
    apply IH.
    + rewrite EA. exact (trailing_step _ pre _ y TA).
    + rewrite MA. exact (longest_step _ pre _ _ y TA LA).
    + rewrite EB. exact (trailing_step _ pre _ y TB).
    + rewrite MB. exact (longest_step _ pre _ _ y TB LB).
Qed.

Lemma forallb_ext' (p q : float -> bool) (l : list float) :
  (forall y, p y = q y) -> forallb p l = forallb q l.
Proof. intro H. induction l as [|a l IH]; simpl; [reflexivity|]. rewrite H, IH. reflexivity. Qed.

Lemma has_streak_ext (p q : float -> bool) (n : nat) (l : list float) :
  (forall y, p y = q y) -> has_streak p n l <-> has_streak q n l.
Proof.
  intro H. unfold has_streak.
  split; intros (a & m & b & E & L & F); exists a, m, b; repeat split; try assumption;
    [rewrite <- (forallb_ext' p q m H) | rewrite (forallb_ext' p q m H)]; exact F.
Qed.

Abbreviation pb mean b := (fun y => Bool.eqb (Js.gt y mean) b).

Abbreviation both_streaks mean pre M :=
  (forall n, (has_streak (pb mean true) n pre \/ has_streak (pb mean false) n pre) <-> (n <= M)%nat).

Abbreviation part_inv mean pre st :=
  match Part000.rs_prevAboveMean st with
  | None => pre = [] /\ Part000.rs_maxRunLength st = 0%nat
  | Some b =>
      (forall n, ends_p (pb mean b) pre n <-> (n <= Part000.rs_currentRun st)%nat) /\
      (forall n, ends_p (pb mean (negb b)) pre n <-> (n <= 0)%nat) /\
      both_streaks mean pre (Nat.max (Part000.rs_maxRunLength st) (Part000.rs_currentRun st))
  end.

Lemma both_step (mean : float) (pre : list float) (y : float) (c1 c2 M : nat) :
  (forall n, ends_p (pb mean true) pre n <-> (n <= c1)%nat) ->
  (forall n, ends_p (pb mean false) pre n <-> (n <= c2)%nat) ->
  both_streaks mean pre M ->
  both_streaks mean (pre ++ [y])
    (Nat.max M (Nat.max (if Bool.eqb (Js.gt y mean) true then S c1 else 0)
                        (if Bool.eqb (Js.gt y mean) false then S c2 else 0))).
Proof.
  intros T1 T2 C n.
  rewrite !has_streak_snoc.
  pose proof (trailing_step _ pre _ y T1 n) as E1.
  pose proof (trailing_step _ pre _ y T2 n) as E2.
  pose proof (C n) as Cn. cbv beta in E1, E2.
  split.
  - intros [[a|e]|[a|e]].
    + assert (n <= M)%nat by (apply Cn; left; exact a). lia.
    + apply E1 in e. lia.
    + assert (n <= M)%nat by (apply Cn; right; exact a). lia.
    + apply E2 in e. lia.
  - intro H.
    destruct (Nat.le_gt_cases n M) as [h|h]; [apply Cn in h; tauto|].
    destruct (Nat.le_gt_cases n (if Bool.eqb (Js.gt y mean) true then S c1 else 0)) as [h1|h1];
      [apply E1 in h1; tauto|].
    assert (h2 : (n <= if Bool.eqb (Js.gt y mean) false then S c2 else 0)%nat) by lia.
    apply E2 in h2. tauto.
Qed.

Lemma part_run_step (mean : float) (pre : list float) (st : Part000.RunState) (y : float) :
  part_inv mean pre st -> part_inv mean (pre ++ [y]) (Part000.run_step mean st y).
Proof.
  destruct st as [ra rb mx cur [b|]]; cbn [Part000.rs_prevAboveMean Part000.rs_currentRun
    Part000.rs_maxRunLength Part000.run_step].
  - intros (Tb & Tn & C).
    pose proof (trailing_step _ pre _ y Tb) as Tb'.
    pose proof (trailing_step _ pre _ y Tn) as Tn'.
    destruct b;
      [pose proof (both_step mean pre y cur 0 _ Tb Tn C) as C'
      |pose proof (both_step mean pre y 0 cur _ Tn Tb C) as C'];
      cbv beta in Tb', Tn';
      destruct (Js.gt y mean); cbn [Bool.eqb negb Part000.rs_prevAboveMean Part000.rs_currentRun
        Part000.rs_maxRunLength] in *;
      (split; [|split]); intro n; rewrite ?Tb', ?Tn', ?C'; lia.
  - intros (-> & ->).
    assert (T0 : forall q, forall n, ends_p q [] n <-> (n <= 0)%nat) by (intro q; exact (trailing_nil q)).
    assert (C0 : both_streaks mean [] 0%nat).
    { intro n. rewrite !has_streak_nil. lia. }
    pose proof (both_step mean [] y 0 0 0 (T0 _) (T0 _) C0) as C'.
    pose proof (trailing_step (pb mean (Js.gt y mean)) [] 0 y (T0 _)) as T1.
    pose proof (trailing_step (pb mean (negb (Js.gt y mean))) [] 0 y (T0 _)) as T2.
    cbv beta in T1, T2.
    destruct (Js.gt y mean); cbn [Bool.eqb negb Part000.rs_prevAboveMean Part000.rs_currentRun
        Part000.rs_maxRunLength] in *;
      (split; [|split]); intro n; rewrite ?T1, ?T2, ?C'; lia.
Qed.

Lemma part_run_fold (mean : float) (xs : list float) :
  part_inv mean xs (fold_left (Part000.run_step mean) xs (Part000.Build_RunState 0 0 0 0 None)).
Proof.
  induction xs as [|y xs IH] using rev_ind.
  - split; reflexivity.
  - rewrite fold_left_app. cbn [fold_left]. apply part_run_step, IH.
Qed.

Lemma part_analyzeRuns (xs : list float) (mean : float) :
  Part000.calculateMean xs = Some mean ->
  exists runs, Part000.analyzeRuns xs = Some runs /\
    both_streaks mean xs (Part000.maxRunLength runs).
Proof.
  intro Hm. destruct xs as [|d0 xs']; [discriminate|].
  unfold Part000.analyzeRuns. rewrite Hm.
  pose proof (part_run_fold mean (d0 :: xs')) as I.
  destruct (fold_left _ _ _) as [ra rb mx cur [b|]].
  - destruct (Part000.trend_loop _ _ _) as [[[mU mD] tU] tD].
    destruct b; (eexists; split; [reflexivity|]); exact (proj2 (proj2 I)).
  - destruct I as [E _]. discriminate.
Qed.

Lemma part_analyzeRuns_none (xs : list float) :
  Part000.calculateMean xs = None -> Part000.analyzeRuns xs = None.
Proof.
  intro Hm. destruct xs as [|d0 xs']; [reflexivity|].
  unfold Part000.analyzeRuns. rewrite Hm. reflexivity.
Qed.

Lemma spc_runs (gm : float) (xs : list float) :
  let st := SpcUtils.run_loop gm None SpcUtils.run_init xs in
  (forall n, has_streak (fun y => Js.gt y gm) n xs <-> (n <= SpcUtils.maxConsecutiveAbove st)%nat) /\
  (forall n, has_streak (fun y => Js.lt y gm) n xs <-> (n <= SpcUtils.maxConsecutiveBelow st)%nat).
Proof.
  apply (spc_run_loop gm xs None SpcUtils.run_init []);
    first [exact (trailing_nil _) | exact (longest_nil _)].
Qed.

Lemma label_yes (b : bool) : label b "Yes" "No" = "Yes"%string <-> b = true.
Proof. destruct b; split; intro H; first [reflexivity | discriminate]. Qed.

Lemma spc_eight (gm : float) (xs : list float) :
  label (Nat.leb 8 (SpcUtils.maxConsecutiveAbove (SpcUtils.run_loop gm None SpcUtils.run_init xs))
         || Nat.leb 8 (SpcUtils.maxConsecutiveBelow (SpcUtils.run_loop gm None SpcUtils.run_init xs)))
    "Yes" "No" = "Yes"%string <->
  has_streak (fun y => Js.gt y gm) 8 xs \/ has_streak (fun y => Js.lt y gm) 8 xs.
Proof.
  destruct (spc_runs gm xs) as [A B].
  rewrite label_yes, orb_true_iff, !Nat.leb_le, A, B. reflexivity.
Qed.

Lemma part_eight (xs : list float) :
  label (Nat.leb 8 (Part000.maxRunLength
    (match Part000.analyzeRuns xs with
     | Some r => r
     | None => {| Part000.runsAbove := 0; Part000.runsBelow := 0; Part000.maxRunLength := 0;
                  Part000.maxTrendUp := 0; Part000.maxTrendDown := 0 |}
     end))) "Yes" "No" = "Yes"%string <->
  Part000.calculateMean xs <> None /\
  (has_streak (fun y => Js.gt y (match Part000.calculateMean xs with Some m => m | None => 0%float end)) 8 xs \/
   has_streak (fun y => negb (Js.gt y (match Part000.calculateMean xs with Some m => m | None => 0%float end))) 8 xs).
Proof.
  rewrite label_yes, Nat.leb_le.
  destruct (Part000.calculateMean xs) as [m|] eqn:Hm.
  - destruct (part_analyzeRuns xs m Hm) as (runs & -> & C).
    rewrite <- C.
    rewrite (has_streak_ext (pb m true) (fun y => Js.gt y m)) by (intro y; destruct (Js.gt y m); reflexivity).
    rewrite (has_streak_ext (pb m false) (fun y => negb (Js.gt y m))) by (intro y; destruct (Js.gt y m); reflexivity).
    split; [intro H; split; [discriminate|exact H] | intros [_ H]; exact H].
  - rewrite (part_analyzeRuns_none xs Hm). cbn. split; [lia|]. intros [H _]. congruence.
Qed.

End Streaks.

(** ** A last subgroup of one point *)
Module LastChunk.

Lemma chunks_fuel_irrel (k : nat) (Hk : (0 < k)%nat) :
  forall f1 f2 l, (length l <= f1)%nat -> (length l <= f2)%nat ->
  chunks_fuel f1 k l = chunks_fuel f2 k l.
Proof.
  induction f1 as [|f1 IH]; intros f2 l H1 H2.
  - destruct l; [destruct f2; reflexivity|simpl in H1; lia].
  - destruct l as [|a l]; [destruct f2; reflexivity|].
    destruct f2 as [|f2]; [simpl in H2; lia|].
    cbn [chunks_fuel]. f_equal. apply IH;
      rewrite length_skipn; cbn [length] in *; lia.
Qed.

Lemma chunks_cons (k : nat) (l : list float) : (0 < k)%nat -> l <> [] ->
  chunks k l = firstn k l :: chunks k (skipn k l).
Proof.
  intros Hk Hne. unfold chunks. destruct l as [|a l']; [congruence|].
  cbn [length chunks_fuel]. f_equal. apply chunks_fuel_irrel; [exact Hk| |reflexivity].
  rewrite length_skipn. cbn [length]. lia.
Qed.

Lemma chunks_app (k : nat) (Hk : (0 < k)%nat) :
  forall q p s, length p = (q * k)%nat -> chunks k (p ++ s) = chunks k p ++ chunks k s.
Proof.
  induction q as [|q IH]; intros p s Hp.
  - destruct p; [reflexivity|simpl in Hp; discriminate].
  - assert (Hne : p <> []) by (intros ->; simpl in Hp; lia).
    rewrite (chunks_cons k p), (chunks_cons k (p ++ s)) by
      (exact Hk || exact Hne || (destruct p; [congruence|discriminate])).
    rewrite firstn_app, skipn_app.
    replace (k - length p)%nat with O by lia.
    rewrite firstn_O, skipn_O, app_nil_r. cbn [app]. f_equal.
    apply IH. rewrite length_skipn. lia.
Qed.

Lemma chunks_single (k : nat) (x : float) : (0 < k)%nat -> chunks k [x] = [[x]].
Proof. intro Hk. destruct k as [|[|k]]; [lia|reflexivity|reflexivity]. Qed.

End LastChunk.

(** ** Signs of the range series

    Binary64 numbers are compared through their canonical mantissas; a
    difference [x - y] with [x] not below [y] is not below zero, so the
    ranges [max - min] and [|b - a|] are never negative. *)
Module RangeSign.

Lemma bounded_facts (m : positive) (e : Z) :
  SpecFloat.bounded prec emax m e = true ->
  Z.pos m < 9007199254740992 /\ -1074 <= e /\ (-1074 < e -> 4503599627370496 <= Z.pos m).
Proof.
  unfold SpecFloat.bounded, canonical_mantissa, fexp, emin. intro H.
  apply andb_prop in H as [H _]. apply Z.eqb_eq in H.
  rewrite FloatFacts.digits2_pos_size in H.
  pose proof (Pos.size_gt m) as G. pose proof (Pos.size_le m) as L.
  assert (G' : Z.pos m < 2 ^ Z.pos (Pos.size m)) by (rewrite <- Pos2Z.inj_pow; exact G).
  assert (L' : 2 ^ Z.pos (Pos.size m) <= 2 * Z.pos m) by (rewrite <- Pos2Z.inj_pow; exact L).
  clear G L. rename G' into G. rename L' into L.
  change prec with 53 in H. change emax with 1024 in H.
  set (s := Z.pos (Pos.size m)) in *.
  assert (Hs : s <= 53) by lia.
  assert (P : 2 ^ s <= 2 ^ 53) by (apply Z.pow_le_mono_r; lia).
  change (2 ^ 53) with 9007199254740992 in P.
  split; [lia|split; [lia|]].
  intro He. assert (Es : s = 53) by lia. rewrite Es in L.
  change (2 ^ 53) with 9007199254740992 in L. lia.
Qed.

Lemma shl_align_fst (m : positive) (e e' : Z) : e' <= e ->
  Z.pos (fst (shl_align m e e')) = Z.pos m * 2 ^ (e - e').
Proof.
  intro H. unfold shl_align. destruct (e' - e) eqn:D.
  - replace (e - e') with 0 by lia. simpl. lia.
  - lia.
  - cbn [fst]. rewrite NatFloat.iter_xO_Z. do 2 f_equal. lia.
Qed.

Lemma compare_finite (sx sy : bool) (mx my : positive) (ex ey : Z) :
  SpecFloat.bounded prec emax mx ex = true -> SpecFloat.bounded prec emax my ey = true ->
  SFcompare (S754_finite sx mx ex) (S754_finite sy my ey) =
  Some (Z.compare (cond_Zopp sx (Z.pos (fst (shl_align mx ex (Z.min ex ey)))))
                  (cond_Zopp sy (Z.pos (fst (shl_align my ey (Z.min ex ey)))))).
Proof.
  intros Bx By.
  destruct (bounded_facts _ _ Bx) as (Mx & Ex & Nx).
  destruct (bounded_facts _ _ By) as (My & Ey & Ny).
  rewrite !shl_align_fst by lia.
  cbn [SFcompare]. f_equal.
  destruct (Z.compare_spec ex ey) as [E|Lt|Gt].
  - subst ey. rewrite Z.min_id, Z.sub_diag, Z.pow_0_r, !Z.mul_1_r.
    change (Pos.compare_cont Eq mx my) with (Pos.compare mx my).
    destruct sx, sy; cbn [cond_Zopp].
    + rewrite Z.compare_opp. cbn. rewrite Pos.compare_antisym, CompOpp_involutive. reflexivity.
    + symmetry. apply Z.compare_lt_iff. lia.
    + symmetry. apply Z.compare_gt_iff. lia.
    + reflexivity.
  - rewrite Z.min_l by lia. rewrite Z.sub_diag, Z.pow_0_r, Z.mul_1_r.
    assert (P : 2 ^ 1 <= 2 ^ (ey - ex)) by (apply Z.pow_le_mono_r; lia).
    assert (B : Z.pos mx < Z.pos my * 2 ^ (ey - ex)) by (specialize (Ny ltac:(lia)); nia).
    destruct sx, sy; cbn [cond_Zopp]; symmetry;
      first [apply Z.compare_lt_iff | apply Z.compare_gt_iff]; lia.
  - rewrite Z.min_r by lia. rewrite Z.sub_diag, Z.pow_0_r, Z.mul_1_r.
    assert (P : 2 ^ 1 <= 2 ^ (ex - ey)) by (apply Z.pow_le_mono_r; lia).
    assert (B : Z.pos my < Z.pos mx * 2 ^ (ex - ey)) by (specialize (Nx ltac:(lia)); nia).
    destruct sx, sy; cbn [cond_Zopp]; symmetry;
      first [apply Z.compare_lt_iff | apply Z.compare_gt_iff]; lia.
Qed.


(** A value that is not below zero: a positive number, a zero, +Infinity or NaN. *)
Lemma round_false_nonneg (m : positive) (e : Z) :
  SFltb (binary_round prec emax false m e) (S754_zero false) = false.
Proof.
  unfold binary_round, binary_round_aux.
  destruct (shl_align _ _ _) as [mz ez].
  destruct (shr_fexp _ _ _ _ _) as [r1 e1].
  destruct (shr_fexp _ _ _ _ _) as [r2 e2].
  destruct (shr_m r2) as [|p|p]; [reflexivity| |reflexivity].
  destruct (e2 <=? _); reflexivity.
Qed.

Lemma normalize_nonneg (z e : Z) : 0 <= z ->
  SFltb (binary_normalize prec emax z e false) (S754_zero false) = false.
Proof.
  intro H. destruct z as [|p|p]; [reflexivity|apply round_false_nonneg|lia].
Qed.

Lemma SFsub_nonneg (a b : spec_float) :
  valid_binary a = true -> valid_binary b = true ->
  a <> S754_nan -> b <> S754_nan -> SFltb a b = false ->
  SFltb (SF64sub a b) (S754_zero false) = false.
Proof.
  intros Va Vb Na Nb H.
  destruct a as [sa|sa| |sa ma ea], b as [sb|sb| |sb mb eb];
    try congruence; unfold SF64sub, SFsub;
    try (destruct sa; try destruct sb; cbn in H |- *; congruence).
  unfold SFltb in H. cbn [valid_binary] in Va, Vb.
  rewrite (compare_finite sa sb ma mb ea eb Va Vb) in H.
  apply normalize_nonneg.
  destruct (Z.compare_spec (cond_Zopp sa (Z.pos (fst (shl_align ma ea (Z.min ea eb)))))
                           (cond_Zopp sb (Z.pos (fst (shl_align mb eb (Z.min ea eb)))))); 
    [lia|discriminate|lia].
Qed.

Lemma sub_nonneg (x y : float) :
  PrimFloat.is_nan x = false -> PrimFloat.is_nan y = false -> PrimFloat.ltb x y = false ->
  PrimFloat.ltb (x - y) 0 = false.
Proof.
  intros Nx Ny H. rewrite ltb_spec in H |- *. rewrite sub_spec, FloatFacts.Prim2SF_zero.
  apply SFsub_nonneg; try apply Prim2SF_valid; try exact H;
    intro E; apply FloatFacts.is_nan_spec in E; congruence.
Qed.

Local Abbreviation Inv a b :=
  (PrimFloat.is_nan a = false /\ PrimFloat.is_nan b = false /\ PrimFloat.ltb a b = false).

Lemma max_step_choice (acc x : float) :
  PrimFloat.is_nan acc = false -> PrimFloat.is_nan x = false ->
  Js.max_step acc x = x \/ (Js.max_step acc x = acc /\ PrimFloat.ltb acc x = false).
Proof.
  intros Na Nx. unfold Js.max_step. rewrite Na, Nx. cbn [orb].
  destruct (PrimFloat.ltb acc x); [left; reflexivity|].
  destruct (_ && _ && _ && _); [left|right]; auto.
Qed.

Lemma min_step_choice (acc x : float) :
  PrimFloat.is_nan acc = false -> PrimFloat.is_nan x = false ->
  Js.min_step acc x = x \/ (Js.min_step acc x = acc /\ PrimFloat.ltb x acc = false).
Proof.
  intros Na Nx. unfold Js.min_step. rewrite Na, Nx. cbn [orb].
  destruct (PrimFloat.ltb x acc); [left; reflexivity|].
  destruct (_ && _ && _ && _); [left|right]; auto.
Qed.

Lemma max_min_step (amax amin x : float) :
  PrimFloat.is_nan x = false -> Inv amax amin ->
  Inv (Js.max_step amax x) (Js.min_step amin x).
Proof.
  intros Nx (Na & Nb & L).
  destruct (max_step_choice amax x Na Nx) as [E1|[E1 L1]];
    destruct (min_step_choice amin x Nb Nx) as [E2|[E2 L2]]; rewrite E1, E2;
    repeat split; try assumption; apply FloatFacts.ltb_irrefl; assumption.
Qed.

Lemma max_min_fold (l : list float) :
  Forall (fun v => PrimFloat.is_nan v = false) l ->
  forall amax amin, Inv amax amin ->
  Inv (fold_left Js.max_step l amax) (fold_left Js.min_step l amin).
Proof.
  intro F. induction F as [|x l Nx F IH]; intros amax amin I; [exact I|].
  cbn [fold_left]. apply IH, max_min_step; assumption.
Qed.

Lemma max_step_first (d : float) : PrimFloat.is_nan d = false ->
  Js.max_step neg_infinity d = d.
Proof.
  intro Nd. unfold Js.max_step. rewrite Nd.
  replace (PrimFloat.is_nan neg_infinity) with false by reflexivity. cbn [orb].
  destruct (PrimFloat.ltb neg_infinity d) eqn:E; [reflexivity|].
  replace (PrimFloat.is_zero neg_infinity) with false by reflexivity.
  rewrite andb_false_r. cbn [andb].
  apply FloatFacts.Prim2SF_inj. rewrite ltb_spec in E.
  assert (Hn : Prim2SF d <> S754_nan) by (intro H; apply FloatFacts.is_nan_spec in H; congruence).
  change (Prim2SF neg_infinity) with (S754_infinity true) in *.
  destruct (Prim2SF d) as [s|s| |s m e]; try destruct s; cbn in E; congruence.
Qed.

Lemma min_step_first (d : float) : PrimFloat.is_nan d = false ->
  Js.min_step infinity d = d.
Proof.
  intro Nd. unfold Js.min_step. rewrite Nd.
  replace (PrimFloat.is_nan infinity) with false by reflexivity. cbn [orb].
  destruct (PrimFloat.ltb d infinity) eqn:E; [reflexivity|].
  replace (PrimFloat.is_zero infinity) with false by reflexivity.
  rewrite andb_false_r. cbn [andb].
  apply FloatFacts.Prim2SF_inj. rewrite ltb_spec in E.
  assert (Hn : Prim2SF d <> S754_nan) by (intro H; apply FloatFacts.is_nan_spec in H; congruence).
  change (Prim2SF infinity) with (S754_infinity false) in *.
  destruct (Prim2SF d) as [s|s| |s m e]; try destruct s; cbn in E; congruence.
Qed.

(** The range [max - min] of a subgroup without NaN is not below zero. *)
Lemma group_range_nonneg (g : list float) :
  g <> [] -> Forall (fun v => PrimFloat.is_nan v = false) g ->
  PrimFloat.ltb (Js.max g - Js.min g) 0 = false.
Proof.
  intros Hne F. destruct F as [|d rest Nd F]; [congruence|].
  unfold Js.max, Js.min. cbn [fold_left].
  rewrite max_step_first, min_step_first by exact Nd.
  destruct (max_min_fold rest F d d (conj Nd (conj Nd (FloatFacts.ltb_irrefl d Nd))))
    as (N1 & N2 & L).
  apply sub_nonneg; assumption.
Qed.

Lemma abs_nonneg (z : float) : PrimFloat.ltb (Js.abs z) 0 = false.
Proof.
  unfold Js.abs. rewrite ltb_spec, abs_spec, FloatFacts.Prim2SF_zero.
  destruct (Prim2SF z); reflexivity.
Qed.

Lemma lt_zero_mul (y a : float) :
  PrimFloat.ltb y 0 = false -> PrimFloat.ltb y (0 * a) = false.
Proof.
  rewrite !ltb_spec, mul_spec, FloatFacts.Prim2SF_zero.
  destruct (Prim2SF y) as [sc|sc| |sc mc ec], (Prim2SF a) as [s|s| |s m e];
    try destruct sc; try destruct s; cbn; congruence.
Qed.

Lemma zero_mul_cases (a : float) :
  PrimFloat.is_nan (0 * a) = true \/ Js.eq (0 * a) 0 = true.
Proof.
  unfold Js.eq. rewrite FloatFacts.is_nan_spec, eqb_spec, mul_spec, FloatFacts.Prim2SF_zero.
  destruct (Prim2SF a) as [s|s| |s m e]; try destruct s; cbn; auto.
Qed.

Lemma range_facts (ranges : list float) (a ucl : float) :
  Forall (fun y => PrimFloat.ltb y 0 = false) ranges ->
  (PrimFloat.is_nan (0 * a) = true \/ Js.eq (0 * a) 0 = true) /\
  Forall (fun y => Js.lt y 0 = false /\ Js.lt y (0 * a) = false) ranges /\
  length (filter (fun y => Js.gt y ucl || Js.lt y (0 * a)) ranges) =
  length (filter (fun y => Js.gt y ucl) ranges).
Proof.
  intro F. split; [apply zero_mul_cases|split].
  - eapply Forall_impl; [|exact F]. intros y H. split; [exact H|]. apply lt_zero_mul, H.
  - induction F as [|y l Hy F IH]; [reflexivity|]. cbn [filter].
    unfold Js.lt at 1. rewrite (lt_zero_mul y a Hy), orb_false_r.
    destruct (Js.gt y ucl); cbn [length]; congruence.
Qed.

Lemma d3_zero (s : float) (k : nat) (c : ChartConstants) :
  controlChartConstants s = Some (k, c) -> D3 c = 0%float.
Proof.
  intro H.
  destruct (ZeroSpread.constants_cases s k c H) as [[_ E]|[[_ E]|[[_ E]|[[_ E]|[_ E]]]]];
    subst c; reflexivity.
Qed.

Lemma spc_movingRanges_nonneg (l : list float) :
  Forall (fun y => PrimFloat.ltb y 0 = false) (SpcUtils.movingRanges l).
Proof.
  induction l as [|a l IH]; [constructor|].
  destruct l as [|b l']; [constructor|]. cbn [SpcUtils.movingRanges].
  constructor; [apply abs_nonneg|exact IH].
Qed.

Lemma part_movingRanges_nonneg (l : list float) :
  Forall (fun y => PrimFloat.ltb y 0 = false) (Part000.movingRanges l).
Proof.
  induction l as [|a l IH]; [constructor|].
  destruct l as [|b l']; [constructor|]. cbn [Part000.movingRanges].
  destruct (Js.isFinite _); [constructor; [apply abs_nonneg|]|]; exact IH.
Qed.

Lemma spc_ranges_nonneg (ms : list float) (k : nat) :
  Forall (fun v => PrimFloat.is_nan v = false) ms -> (0 < k)%nat ->
  Forall (fun y => PrimFloat.ltb y 0 = false) (SpcUtils.calculateSubgroupRanges ms k).
Proof.
  intros F Hk. unfold SpcUtils.calculateSubgroupRanges.
  destruct (Nat.eqb k 1); [apply spc_movingRanges_nonneg|].
  destruct k as [|k']; [lia|]. unfold chunks.
  apply (Subgroups.flat_map_Forall
           (fun g => Forall (fun v => PrimFloat.is_nan v = false) g /\ g <> [])).
  - intros g [Fg Hg]. destruct (Nat.ltb 1 (length g)); [|constructor].
    constructor; [apply group_range_nonneg; assumption|constructor].
  - apply Subgroups.chunks_fuel_Forall, F.
Qed.

Lemma part_ranges_nonneg (ms : list float) (k : nat) :
  Forall (fun v => PrimFloat.is_nan v = false) ms -> (0 < k)%nat ->
  Forall (fun y => PrimFloat.ltb y 0 = false) (snd (Part000.subgroups ms k)).
Proof.
  intros F Hk. destruct (Nat.eq_dec k 1) as [->|Hk1].
  - apply part_movingRanges_nonneg.
  - rewrite Subgroups.Part000_subgroups_chunks by exact Hk1. cbn [snd].
    destruct k as [|k']; [lia|]. unfold chunks.
    apply (Subgroups.flat_map_Forall
             (fun g => Forall (fun v => PrimFloat.is_nan v = false) g /\ g <> [])).
    + intros g [Fg Hg]. unfold SubgroupParts.part_range. destruct (Nat.ltb 0 (length g)); [|constructor].
      constructor; [apply group_range_nonneg; assumption|constructor].
    + apply Subgroups.chunks_fuel_Forall, F.
Qed.

Lemma filter_not_nan (l : list float) :
  Forall (fun v => PrimFloat.is_nan v = false) (filter (fun m => negb (Js.isNaN m)) l).
Proof.
  apply Forall_forall. intros x Hx. apply filter_In in Hx as [_ H].
  unfold Js.isNaN in H. destruct (PrimFloat.is_nan x); [discriminate|reflexivity].
Qed.

Lemma valid_not_nan (l : list InspectionData) :
  Forall (fun v => PrimFloat.is_nan v = false)
    (map (fun d => parseFloat (ActualSpecification d)) (filter Part000.valid l)).
Proof.
  apply Forall_map. eapply Forall_impl; [|apply Retained.filter_valid_Forall].
  intros d [H _]. unfold Js.isFinite, PrimFloat.is_finite in H.
  destruct (PrimFloat.is_nan _); [discriminate|reflexivity].
Qed.

End RangeSign.

(** ** The claims *)
Module Claims.
Import Inputs.
Local Open Scope float_scope.

(** C1 (amended): for all-identical finite measurements the within-subgroup
    estimate is exactly 0 in both files.  spcUtils.ts replaces it by 1e-6, so
    Cp, Cpu, Cpl and Cpk are the specification differences divided by
    6e-6 or 3e-6; part_000 divides by 0, so its Cp, Cpu, Cpl and Cpk are
    never finite numbers. *)
Theorem zero_spread_capability (inspectionData : list InspectionData) (sampleSize c : float) :
  PrimFloat.is_finite c = true ->
  Forall (fun d => parseFloat (ActualSpecification d) = c) inspectionData ->
  (Z.of_nat (length inspectionData) < 2 ^ 53)%Z ->
  (forall r, SpcUtils.calculateAnalysisData inspectionData sampleSize = inr r ->
     withinStdDev r = 0 /\
     cp r = (r_usl r - r_lsl r) / (6 * 0.000001) /\
     cpu r = (r_usl r - grandMean r) / (3 * 0.000001) /\
     cpl r = (grandMean r - r_lsl r) / (3 * 0.000001) /\
     cpk r = Js.min2 (cpu r) (cpl r)) /\
  (forall r, Part000.calculateAnalysisData inspectionData sampleSize = inr r ->
     withinStdDev r = 0 /\
     PrimFloat.is_finite (cp r) = false /\ PrimFloat.is_finite (cpu r) = false /\
     PrimFloat.is_finite (cpl r) = false /\ PrimFloat.is_finite (cpk r) = false).
Proof.
  intros Hc F L. split.
  - exact (ZeroSpreadResults.spc_zero_spread inspectionData sampleSize c Hc F L).
  - exact (ZeroSpreadResults.part_zero_spread inspectionData sampleSize c Hc F L).
Qed.

Lemma zero_spread_capability_witness :
  (exists r, SpcUtils.calculateAnalysisData identical3 1 = inr r) /\
  (exists r, Part000.calculateAnalysisData identical3 1 = inr r) /\
  (forall r, SpcUtils.calculateAnalysisData identical3 1 = inr r ->
     withinStdDev r = 0 /\
     cp r = (r_usl r - r_lsl r) / (6 * 0.000001) /\
     cpu r = (r_usl r - grandMean r) / (3 * 0.000001) /\
     cpl r = (grandMean r - r_lsl r) / (3 * 0.000001) /\
     cpk r = Js.min2 (cpu r) (cpl r)) /\
  (forall r, Part000.calculateAnalysisData identical3 1 = inr r ->
     withinStdDev r = 0 /\
     PrimFloat.is_finite (cp r) = false /\ PrimFloat.is_finite (cpu r) = false /\
     PrimFloat.is_finite (cpl r) = false /\ PrimFloat.is_finite (cpk r) = false).
Proof.
  split; [eexists; vm_compute; reflexivity|].
  split; [eexists; vm_compute; reflexivity|].
  apply (zero_spread_capability identical3 1 3).
  - reflexivity.
  - apply Forall_forall. intros d Hd. vm_compute in Hd.
    destruct Hd as [<-|[<-|[<-|[]]]]; vm_compute; reflexivity.
  - vm_compute. reflexivity.
Defined.

(** C1: three identical measurements give part_000 an infinite Cp, and
    give spcUtils.ts an infinite Pp when the overall deviation is a
    rounding residue instead of 0. *)
Lemma zero_spread_counterexample :
  (exists r, Part000.calculateAnalysisData identical3 1 = inr r /\ cp r = infinity) /\
  (exists r, SpcUtils.calculateAnalysisData tenthsWideLimits 3 = inr r /\
     stdDev r <> 0 /\ pp r = infinity).
Proof.
  split; eexists; (split; [vm_compute; reflexivity|]).
  - vm_compute. reflexivity.
  - vm_compute. split; [discriminate|reflexivity].
Qed.

(** C2 (amended): part_000 keeps the records whose three fields parse to
    finite numbers and takes lsl and usl from the first kept record; with
    sample size 1 its X-bar series is the measurements of the kept records.
    spcUtils.ts keeps every measurement that is not NaN (Infinity is kept)
    and takes lsl and usl from the first input record, whatever its
    fields. *)
Theorem retained_records (inspectionData : list InspectionData) (sampleSize : float) :
  (forall r, Part000.calculateAnalysisData inspectionData sampleSize = inr r ->
     exists d0 rest, filter Part000.valid inspectionData = d0 :: rest /\
       r_lsl r = parseFloat (FromSpecification d0) /\
       r_usl r = parseFloat (ToSpecification d0) /\
       Forall (fun d => Js.isFinite (parseFloat (ActualSpecification d)) = true /\
                        Js.isFinite (parseFloat (FromSpecification d)) = true /\
                        Js.isFinite (parseFloat (ToSpecification d)) = true) (d0 :: rest) /\
       (sampleSize = 1 ->
          xBarData r = map (fun d => parseFloat (ActualSpecification d)) (d0 :: rest))) /\
  (forall r, SpcUtils.calculateAnalysisData inspectionData sampleSize = inr r ->
     exists d0 rest, inspectionData = d0 :: rest /\
       r_lsl r = parseFloat (FromSpecification d0) /\
       r_usl r = parseFloat (ToSpecification d0) /\
       (sampleSize = 1 ->
          xBarData r = filter (fun m => negb (Js.isNaN m))
                         (map (fun d => parseFloat (ActualSpecification d)) inspectionData))).
Proof.
  split.
  - intros r H. unfold Part000.calculateAnalysisData in H.
    destruct (controlChartConstants sampleSize) as [[k cst]|] eqn:Hk; [|discriminate].
    destruct (Js.lt _ _); [discriminate|].
    pose proof (Retained.filter_valid_Forall inspectionData) as Fv.
    destruct (filter Part000.valid inspectionData) as [|d0 rest] eqn:Ev; [discriminate|].
    destruct (Part000.subgroups _ k) as [means ranges] eqn:Hs.
    cbv zeta in H. injection H as <-. exists d0, rest.
    cbn [r_lsl r_usl xBarData].
    repeat split; try reflexivity; [exact Fv|].
    intros ->. vm_compute in Hk. injection Hk as <- _.
    cbn [Part000.subgroups Nat.eqb] in Hs. injection Hs as <- _.
    exact (Retained.map_finite_id (d0 :: rest) Fv).
  - intros r H. unfold SpcUtils.calculateAnalysisData in H.
    destruct (controlChartConstants sampleSize) as [[k cst]|] eqn:Hk; [|discriminate].
    destruct (Js.lt _ _); [discriminate|].
    destruct inspectionData as [|d0 rest] eqn:Ei; [discriminate|].
    cbv zeta in H. injection H as <-. exists d0, rest.
    cbn [r_lsl r_usl xBarData].
    repeat split; try reflexivity.
    intros ->. vm_compute in Hk. injection Hk as <- _. reflexivity.
Qed.

Lemma retained_records_witness :
  exists r, Part000.calculateAnalysisData oneTwoThree 1 = inr r /\
    exists d0 rest, filter Part000.valid oneTwoThree = d0 :: rest /\
      r_lsl r = parseFloat (FromSpecification d0) /\
      r_usl r = parseFloat (ToSpecification d0) /\
      Forall (fun d => Js.isFinite (parseFloat (ActualSpecification d)) = true /\
                       Js.isFinite (parseFloat (FromSpecification d)) = true /\
                       Js.isFinite (parseFloat (ToSpecification d)) = true) (d0 :: rest) /\
      (1 = 1 ->
         xBarData r = map (fun d => parseFloat (ActualSpecification d)) (d0 :: rest)).
Proof.
  eexists. split; [vm_compute; reflexivity|].
  apply (proj1 (retained_records oneTwoThree 1)). vm_compute. reflexivity.
Defined.

(** C2: the first record's specification limit "abc" does not parse;
    spcUtils.ts still takes lsl from it (NaN) and keeps its measurement. *)
Lemma retained_records_counterexample :
  exists r, SpcUtils.calculateAnalysisData unparsedFirstLimit 1 = inr r /\
    PrimFloat.is_nan (r_lsl r) = true /\
    xBarData r = [4; 5].
Proof.
  eexists. split; [vm_compute; reflexivity|]. split; vm_compute; reflexivity.
Qed.

(** C3 (amended): the sample size is checked first: the invalid-sample-size
    error comes exactly when the size is not one of 1 to 5, and only for a
    size in the table does the insufficient-data error come, exactly when
    fewer valid measurements than the size remain (spcUtils.ts counts the
    measurements that are not NaN, part_000 the records with three finite
    fields).  No other error, and a result otherwise. *)
Theorem sample_size_errors (inspectionData : list InspectionData) (sampleSize : float) :
  (Z.of_nat (length inspectionData) < 2 ^ 53)%Z ->
  (controlChartConstants sampleSize = None <->
     (forall k, (1 <= k <= 5)%nat -> sampleSize <> Js.of_nat k)) /\
  SpecSide.reports_errors (SpcUtils.calculateAnalysisData inspectionData sampleSize) sampleSize
    (length (filter (fun m => negb (Js.isNaN m))
               (map (fun d => parseFloat (ActualSpecification d)) inspectionData))) /\
  SpecSide.reports_errors (Part000.calculateAnalysisData inspectionData sampleSize) sampleSize
    (length (filter Part000.valid inspectionData)).
Proof.
  intro L. split; [apply Outcome.constants_none|]. split.
  - apply Outcome.outcome_reports. apply Outcome.spc_outcome. exact L.
  - apply Outcome.outcome_reports. apply Outcome.part_outcome. exact L.
Qed.

Lemma sample_size_errors_witness :
  (controlChartConstants 2 = None <->
     (forall k, (1 <= k <= 5)%nat -> 2 <> Js.of_nat k)) /\
  SpecSide.reports_errors (SpcUtils.calculateAnalysisData oneTwoThree 2) 2
    (length (filter (fun m => negb (Js.isNaN m))
               (map (fun d => parseFloat (ActualSpecification d)) oneTwoThree))) /\
  SpecSide.reports_errors (Part000.calculateAnalysisData oneTwoThree 2) 2
    (length (filter Part000.valid oneTwoThree)).
Proof.
  apply (sample_size_errors oneTwoThree 2). vm_compute. reflexivity.
Defined.

(** C3: with sample size 6 and no record there are fewer valid measurements
    than the sample size, yet both files report the invalid sample size. *)
Lemma sample_size_errors_counterexample :
  (length (filter Part000.valid []) < 6)%nat /\
  SpcUtils.calculateAnalysisData [] 6 = inl InvalidSampleSize /\
  Part000.calculateAnalysisData [] 6 = inl InvalidSampleSize.
Proof. split; [simpl; lia|]. split; vm_compute; reflexivity. Qed.

(** C4 (amended): part_000 computes the overall deviation as the population
    standard deviation (division by N) of the kept measurements around the
    grand mean, provided every squared deviation is a finite number (the
    others are dropped); spcUtils.ts computes it around the flat mean of the
    raw measurement series. *)
Theorem overall_std_dev (inspectionData : list InspectionData) (sampleSize : float) :
  (forall r, Part000.calculateAnalysisData inspectionData sampleSize = inr r ->
     Forall (fun x => Js.isFinite (Js.pow2 (x - grandMean r)) = true)
       (map (fun d => parseFloat (ActualSpecification d)) (filter Part000.valid inspectionData)) ->
     stdDev r = SpecSide.populationStdDev (grandMean r)
       (map (fun d => parseFloat (ActualSpecification d)) (filter Part000.valid inspectionData))) /\
  (forall r, SpcUtils.calculateAnalysisData inspectionData sampleSize = inr r ->
     let ms := filter (fun m => negb (Js.isNaN m))
                 (map (fun d => parseFloat (ActualSpecification d)) inspectionData) in
     stdDev r = SpecSide.populationStdDev
                  (match SpcUtils.calculateMean ms with Some m => m | None => 0 end) ms).
Proof.
  split.
  - intros r H. unfold Part000.calculateAnalysisData in H.
    destruct (controlChartConstants sampleSize) as [[k cst]|] eqn:Hk; [|discriminate].
    destruct (Js.lt _ _); [discriminate|].
    destruct (filter Part000.valid inspectionData) as [|d0 rest] eqn:Ev; [discriminate|].
    destruct (Part000.subgroups _ k) as [means ranges] eqn:Hs.
    cbv zeta in H. apply Series.inr_eq in H. subst r. cbn [stdDev grandMean]. intro F.
    rewrite Overall.part_stdDev by (discriminate || exact F). reflexivity.
  - intros r H ms. unfold SpcUtils.calculateAnalysisData in H. fold ms in H.
    destruct (controlChartConstants sampleSize) as [[k cst]|] eqn:Hk; [|discriminate].
    destruct (NatFloat.sample_size_of_nat _ _ _ Hk) as [-> Hk1].
    destruct ms as [|m0 ms'] eqn:Em.
    + rewrite NatFloat.lt_of_nat in H by (simpl; lia).
      replace (Nat.ltb (length []) k) with true in H by (symmetry; apply Nat.ltb_lt; simpl; lia).
      discriminate.
    + destruct (Js.lt _ _); [discriminate|].
      destruct inspectionData as [|d0 rest]; [discriminate|].
      cbv zeta in H. apply Series.inr_eq in H. subst r. cbn [stdDev].
      rewrite Overall.spc_stdDev by discriminate. reflexivity.
Qed.

Lemma overall_std_dev_witness :
  exists r, Part000.calculateAnalysisData zeroZeroThree 2 = inr r /\
    stdDev r = SpecSide.populationStdDev (grandMean r)
      (map (fun d => parseFloat (ActualSpecification d)) (filter Part000.valid zeroZeroThree)).
Proof.
  eexists. split; [vm_compute; reflexivity|].
  apply (proj1 (overall_std_dev zeroZeroThree 2)).
  - vm_compute. reflexivity.
  - vm_compute. repeat constructor.
Defined.

(** C4: on 0, 0, 3 in subgroups of 2 the grand mean is 1.5, and spcUtils.ts
    reports sqrt 2 instead of the population deviation around 1.5. *)
Lemma overall_std_dev_counterexample :
  exists r, SpcUtils.calculateAnalysisData zeroZeroThree 2 = inr r /\
    grandMean r = 1.5 /\
    stdDev r <> SpecSide.populationStdDev (grandMean r)
      (map (fun d => parseFloat (ActualSpecification d)) zeroZeroThree).
Proof.
  eexists. split; [vm_compute; reflexivity|]. split; [vm_compute; reflexivity|].
  vm_compute. discriminate.
Qed.

(** C6 (amended): spcUtils.ts reports eight consecutive points exactly when
    some eight consecutive subgroup means lie strictly above, or strictly
    below, the grand mean.  part_000 splits the points into above and not
    above, so a point at the grand mean continues a run of points below it;
    its signal fires exactly when the grand mean is defined and eight
    consecutive means are above it, or eight are not above it. *)
Theorem run_detection (inspectionData : list InspectionData) (sampleSize : float) (r : AnalysisData) :
  (SpcUtils.calculateAnalysisData inspectionData sampleSize = inr r ->
   (ss_eightConsecutivePoints r = "Yes"%string <->
    SpecSide.has_streak (fun y => Js.gt y (grandMean r)) 8 (xBarData r) \/
    SpecSide.has_streak (fun y => Js.lt y (grandMean r)) 8 (xBarData r))) /\
  (Part000.calculateAnalysisData inspectionData sampleSize = inr r ->
   (ss_eightConsecutivePoints r = "Yes"%string <->
    Part000.calculateMean (xBarData r) <> None /\
    (SpecSide.has_streak (fun y => Js.gt y (grandMean r)) 8 (xBarData r) \/
     SpecSide.has_streak (fun y => negb (Js.gt y (grandMean r))) 8 (xBarData r)))).
Proof.
  split; intro H.
  - unfold SpcUtils.calculateAnalysisData in H.
    destruct (controlChartConstants sampleSize) as [[k cst]|]; [|discriminate].
    destruct (Js.lt _ _); [discriminate|].
    destruct inspectionData as [|d0 rest]; [discriminate|].
    cbv zeta in H. apply Series.inr_eq in H. subst r.
    cbn [ss_eightConsecutivePoints grandMean xBarData]. apply Streaks.spc_eight.
  - unfold Part000.calculateAnalysisData in H.
    destruct (controlChartConstants sampleSize) as [[k cst]|]; [|discriminate].
    destruct (Js.lt _ _); [discriminate|].
    destruct (filter Part000.valid inspectionData) as [|d0 rest]; [discriminate|].
    destruct (Part000.subgroups _ k) as [means ranges].
    cbv zeta in H. apply Series.inr_eq in H. subst r.
    cbn [ss_eightConsecutivePoints grandMean xBarData]. apply Streaks.part_eight.
Qed.

Lemma run_detection_witness :
  exists r, Part000.calculateAnalysisData constant5 1 = inr r /\
    (ss_eightConsecutivePoints r = "Yes"%string <->
     Part000.calculateMean (xBarData r) <> None /\
     (SpecSide.has_streak (fun y => Js.gt y (grandMean r)) 8 (xBarData r) \/
      SpecSide.has_streak (fun y => negb (Js.gt y (grandMean r))) 8 (xBarData r))).
Proof.
  eexists. split; [vm_compute; reflexivity|].
  apply (proj2 (run_detection constant5 1 _)). vm_compute. reflexivity.
Defined.

(** C6: eight equal subgroup means, none above or below the grand mean, make
    part_000 report eight consecutive points. *)
Lemma run_detection_counterexample :
  exists r, Part000.calculateAnalysisData constant8 1 = inr r /\
    ss_eightConsecutivePoints r = "Yes"%string /\
    Forall (fun y => Js.gt y (grandMean r) = false /\ Js.lt y (grandMean r) = false) (xBarData r).
Proof.
  eexists. split; [vm_compute; reflexivity|]. split; [vm_compute; reflexivity|].
  vm_compute. repeat constructor.
Qed.

(** C5: the subgroup means 1, 2, ..., 7, 0 (sample size 1) hold seven
    strictly increasing consecutive points.  part_000 reports a six-point
    trend; spcUtils.ts reports none, because it reads the counters of the
    last step only, and they were reset by the final drop. *)
Theorem trend_signal_divergence :
  exists r1 r2,
    SpcUtils.calculateAnalysisData riseThenDrop 1 = inr r1 /\
    Part000.calculateAnalysisData riseThenDrop 1 = inr r2 /\
    xBarData r1 = [1; 2; 3; 4; 5; 6; 7; 0] /\
    xBarData r2 = [1; 2; 3; 4; 5; 6; 7; 0] /\
    ss_sixConsecutiveTrend r1 = "No"%string /\
    ss_sixConsecutiveTrend r2 = "Yes"%string.
Proof.
  do 2 eexists. split; [vm_compute; reflexivity|]. split; [vm_compute; reflexivity|].
  repeat split; vm_compute; reflexivity.
Qed.

(** C7: spcUtils.ts reports "Stable" exactly when no X-bar point is outside
    the limits and no eight-point run was found, and "Unstable" otherwise.
    part_000 also requires the longest run to be 0, which never holds when
    there is a subgroup mean: five equal means inside the limits, with no
    eight-point run, are reported "Unstable". *)
Theorem stability_rule :
  (forall inspectionData sampleSize r,
     SpcUtils.calculateAnalysisData inspectionData sampleSize = inr r ->
     (pi_processStability r = "Stable"%string <->
      pointsOutsideXBarLimits r = O /\ ss_eightConsecutivePoints r = "No"%string) /\
     (pi_processStability r <> "Stable"%string -> pi_processStability r = "Unstable"%string)) /\
  (exists r, Part000.calculateAnalysisData constant5 1 = inr r /\
     pointsOutsideXBarLimits r = O /\ ss_eightConsecutivePoints r = "No"%string /\
     pi_processStability r = "Unstable"%string).
Proof.
  split.
  - intros inspectionData sampleSize r H. unfold SpcUtils.calculateAnalysisData in H.
    destruct (controlChartConstants sampleSize) as [[k cst]|]; [|discriminate].
    destruct (Js.lt _ _); [discriminate|].
    destruct inspectionData as [|d0 rest]; [discriminate|].
    cbv zeta in H. apply Series.inr_eq in H. subst r.
    cbn [pi_processStability pointsOutsideXBarLimits ss_eightConsecutivePoints].
    apply Streaks.stability_label.
  - eexists. split; [vm_compute; reflexivity|]. repeat split; vm_compute; reflexivity.
Qed.

Lemma stability_rule_witness :
  exists r, SpcUtils.calculateAnalysisData oneTwoThree 2 = inr r /\
    (pi_processStability r = "Stable"%string <->
     pointsOutsideXBarLimits r = O /\ ss_eightConsecutivePoints r = "No"%string).
Proof.
  eexists. split; [vm_compute; reflexivity|].
  apply (proj1 (proj1 stability_rule oneTwoThree 2 _ eq_refl)).
Defined.

(** C8: the measurements 0 and 10 with lsl -100 give two bins that start at
    -100 and are 5 wide, so 0 falls outside them: both files count one value
    out of two. *)
Theorem histogram_drops_values :
  exists r1 r2,
    SpcUtils.calculateAnalysisData farLowerLimit 1 = inr r1 /\
    Part000.calculateAnalysisData farLowerLimit 1 = inr r2 /\
    xBarData r1 = [0; 10] /\ xBarData r2 = [0; 10] /\
    bins (distribution r1) = [O; 1%nat] /\
    bins (distribution r2) = [O; 1%nat].
Proof.
  do 2 eexists. split; [vm_compute; reflexivity|]. split; [vm_compute; reflexivity|].
  repeat split; vm_compute; reflexivity.
Qed.

(** C9 (amended): with subgroups of k > 1 points and a last subgroup of one
    point x, spcUtils.ts adds the mean of x to the X-bar series and nothing
    to the range series, whatever x is (Infinity included), while part_000
    adds its mean and the range max - min of that one point, which is 0
    when x is finite (as every measurement part_000 keeps is). *)
Theorem single_point_subgroup (p : list float) (x : float) (k q : nat) :
  (1 < k)%nat -> length p = (q * k)%nat ->
  SpcUtils.calculateSubgroupXBar (p ++ [x]) k =
    SpcUtils.calculateSubgroupXBar p k ++ [sum [x] / Js.of_nat 1] /\
  SpcUtils.calculateSubgroupRanges (p ++ [x]) k = SpcUtils.calculateSubgroupRanges p k /\
  Part000.subgroups (p ++ [x]) k =
    (fst (Part000.subgroups p k) ++
       [match Part000.calculateMean [x] with Some m => m | None => 0 end],
     snd (Part000.subgroups p k) ++ [Js.max [x] - Js.min [x]]) /\
  (PrimFloat.is_finite x = true -> Js.max [x] - Js.min [x] = 0).
Proof.
  intros Hk Hp.
  assert (Hk0 : (0 < k)%nat) by lia.
  assert (Hk1 : Nat.eqb k 1 = false) by (apply Nat.eqb_neq; lia).
  unfold SpcUtils.calculateSubgroupXBar, SpcUtils.calculateSubgroupRanges.
  rewrite Hk1, !(LastChunk.chunks_app k Hk0 q p [x] Hp), (LastChunk.chunks_single k x Hk0),
    !flat_map_app.
  rewrite !Subgroups.Part000_subgroups_chunks by lia.
  rewrite (LastChunk.chunks_app k Hk0 q p [x] Hp), (LastChunk.chunks_single k x Hk0),
    !flat_map_app.
  cbn [flat_map fst snd length Nat.ltb Nat.leb SubgroupParts.part_mean SubgroupParts.part_range].
  rewrite !app_nil_r. split; [reflexivity|split; [reflexivity|split; [reflexivity|]]].
  intro Hx. apply (ZeroSpread.group_range_zero x); [exact Hx|repeat constructor|discriminate].
Qed.

Lemma single_point_subgroup_witness :
  ((1 < 2)%nat /\ length [1; 2] = (1 * 2)%nat) /\
  SpcUtils.calculateSubgroupRanges ([1; 2] ++ [infinity]) 2 =
    SpcUtils.calculateSubgroupRanges [1; 2] 2.
Proof.
  split; [split; [lia|reflexivity]|].
  exact (proj1 (proj2 (single_point_subgroup [1; 2] infinity 2 1 ltac:(lia) eq_refl))).
Defined.

(** C9: on 1, 2, 3 in subgroups of 2, part_000 records the range 0 for the
    last subgroup [3]. *)
Lemma single_point_subgroup_counterexample :
  exists r, Part000.calculateAnalysisData oneTwoThree 2 = inr r /\
    xBarData r = [1.5; 3] /\ rangeData r = [1; 0].
Proof.
  eexists. split; [vm_compute; reflexivity|]. split; vm_compute; reflexivity.
Qed.

(** C10 (amended): D3 is 0 in every row of the constants table, so in both
    files rangeLcl is 0 * avgRange: it is 0 (or -0), or NaN when avgRange is
    infinite or NaN.  No range value is below 0 or below rangeLcl, and the
    out-of-limits count of the range chart counts the points above
    rangeUcl. *)
Theorem range_lower_limit :
  (forall s k c, controlChartConstants s = Some (k, c) -> D3 c = 0%float) /\
  (forall inspectionData sampleSize r,
     (SpcUtils.calculateAnalysisData inspectionData sampleSize = inr r \/
      Part000.calculateAnalysisData inspectionData sampleSize = inr r) ->
     rangeLcl r = (0 * avgRange r)%float /\
     (PrimFloat.is_nan (rangeLcl r) = true \/ Js.eq (rangeLcl r) 0 = true) /\
     Forall (fun y => Js.lt y 0 = false /\ Js.lt y (rangeLcl r) = false) (rangeData r) /\
     pointsOutsideRangeLimits r = length (filter (fun y => Js.gt y (rangeUcl r)) (rangeData r))).
Proof.
  split; [exact RangeSign.d3_zero|].
  intros inspectionData sampleSize r [H|H].
  - unfold SpcUtils.calculateAnalysisData in H.
    destruct (controlChartConstants sampleSize) as [[k cst]|] eqn:Hk; [|discriminate].
    destruct (NatFloat.sample_size_of_nat _ _ _ Hk) as [_ Hk1].
    destruct (Js.lt _ _); [discriminate|].
    destruct inspectionData as [|d0 rest]; [discriminate|].
    cbv zeta in H. apply Series.inr_eq in H. subst r.
    cbn [rangeLcl avgRange rangeData rangeUcl pointsOutsideRangeLimits].
    rewrite (RangeSign.d3_zero _ _ _ Hk). split; [reflexivity|].
    apply RangeSign.range_facts, RangeSign.spc_ranges_nonneg; [apply RangeSign.filter_not_nan|lia].
  - unfold Part000.calculateAnalysisData in H.
    destruct (controlChartConstants sampleSize) as [[k cst]|] eqn:Hk; [|discriminate].
    destruct (NatFloat.sample_size_of_nat _ _ _ Hk) as [_ Hk1].
    destruct (Js.lt _ _); [discriminate|].
    pose proof (RangeSign.part_ranges_nonneg _ k (RangeSign.valid_not_nan inspectionData) ltac:(lia)) as F.
    destruct (filter Part000.valid inspectionData) as [|d0 rest]; [discriminate|].
    destruct (Part000.subgroups _ k) as [means ranges] eqn:Hs.
    cbv zeta in H. apply Series.inr_eq in H. subst r.
    cbn [rangeLcl avgRange rangeData rangeUcl pointsOutsideRangeLimits].
    rewrite (RangeSign.d3_zero _ _ _ Hk). split; [reflexivity|].
    apply RangeSign.range_facts. exact F.
Qed.

Lemma range_lower_limit_witness :
  exists r, SpcUtils.calculateAnalysisData oneTwoThree 2 = inr r /\
    Forall (fun y => Js.lt y 0 = false /\ Js.lt y (rangeLcl r) = false) (rangeData r).
Proof.
  eexists. split; [vm_compute; reflexivity|].
  apply (proj2 range_lower_limit oneTwoThree 2 _ (or_introl eq_refl)).
Defined.

(** C10: with measurements -1e308 and 1e308 in one subgroup of 2, the range
    overflows to Infinity and spcUtils.ts computes rangeLcl = 0 * Infinity,
    which is NaN, not 0. *)
Lemma range_lower_limit_counterexample :
  exists r, SpcUtils.calculateAnalysisData extremes 2 = inr r /\
    avgRange r = infinity /\ PrimFloat.is_nan (rangeLcl r) = true.
Proof.
  eexists. split; [vm_compute; reflexivity|]. split; vm_compute; reflexivity.
Qed.

End Claims.

(** ** Lengths of the subgroup series

    [chunks k] cuts [n] measurements into [ceil(n / k)] subgroups, all of
    [k] points but the last. *)
Module SubgroupCounts.
Local Open Scope nat_scope.

Lemma ceil_div_step (n k : nat) : (0 < k)%nat -> (0 < n)%nat ->
  S ((n - k + k - 1) / k) = (n + k - 1) / k.
Proof.
  intros Hk Hn. destruct (Nat.le_gt_cases n k) as [h|h].
  - rewrite Nat.div_small by lia.
    symmetry. symmetry. apply (Nat.div_unique _ _ _ (n - 1)); lia.
  - replace (n - k + k - 1)%nat with (n - 1)%nat by lia.
    replace (n + k - 1)%nat with (n - 1 + 1 * k)%nat by lia.
    rewrite Nat.div_add by lia. lia.
Qed.

Lemma chunks_fuel_count (k : nat) (Hk : (0 < k)%nat) :
  forall fuel l, (length l <= fuel)%nat ->
  length (chunks_fuel fuel k l) = ((length l + k - 1) / k)%nat.
Proof.
  induction fuel as [|fuel IH]; intros l Hl.
  - destruct l; [|simpl in Hl; lia]. simpl. rewrite Nat.div_small; lia.
  - destruct l as [|a l'].
    + simpl. rewrite Nat.div_small; lia.
    + cbn [chunks_fuel length]. rewrite IH by (rewrite length_skipn; cbn [length] in *; lia).
      rewrite length_skipn. apply ceil_div_step; cbn [length]; lia.
Qed.

Lemma chunks_count (k : nat) (l : list float) : (0 < k)%nat ->
  length (chunks k l) = ((length l + k - 1) / k)%nat.
Proof. intro Hk. apply chunks_fuel_count; [exact Hk|lia]. Qed.

Lemma flat_map_one_length {A B} (P : A -> Prop) (f : A -> list B) (l : list A) :
  (forall a, P a -> length (f a) = 1%nat) -> Forall P l -> length (flat_map f l) = length l.
Proof.
  intros H F. induction F as [|a l Pa F IH]; [reflexivity|].
  simpl. rewrite length_app, H, IH by exact Pa. reflexivity.
Qed.

Lemma chunks_nonempty (k : nat) (l : list float) : (0 < k)%nat ->
  Forall (fun g => g <> []) (chunks k l).
Proof.
  intro Hk. destruct k as [|k]; [lia|]. unfold chunks.
  eapply Forall_impl; [|apply (Subgroups.chunks_fuel_Forall (fun _ => True))].
  - intros g [_ H]. exact H.
  - apply Forall_forall. intros; exact I.
Qed.

Lemma ranges_step (n k : nat) : (1 < k)%nat -> (0 < n)%nat ->
  ((if Nat.ltb 1 (Nat.min k n) then 1 else 0) +
   ((n - k) / k + (if Nat.ltb 1 ((n - k) mod k) then 1 else 0)) =
   n / k + (if Nat.ltb 1 (n mod k) then 1 else 0))%nat.
Proof.
  intros Hk Hn. destruct (Nat.le_gt_cases n k) as [h|h].
  - replace (n - k)%nat with O by lia. rewrite Nat.Div0.div_0_l, Nat.Div0.mod_0_l by lia.
    destruct (Nat.eq_dec n k) as [->|ne].
    + rewrite Nat.div_same, Nat.Div0.mod_same by lia. rewrite Nat.min_id.
      replace (Nat.ltb 1 k) with true by (symmetry; apply Nat.ltb_lt; lia). reflexivity.
    + rewrite Nat.div_small, Nat.mod_small by lia. rewrite Nat.min_r by lia.
      destruct (Nat.ltb 1 n); reflexivity.
  - rewrite Nat.min_l by lia.
    replace n with (n - k + 1 * k)%nat at 3 4 by lia.
    rewrite Nat.div_add, Nat.Div0.mod_add by lia.
    replace (Nat.ltb 1 k) with true by (symmetry; apply Nat.ltb_lt; lia). lia.
Qed.

Lemma spc_ranges_fuel (k : nat) (Hk : (1 < k)%nat) :
  forall fuel l, (length l <= fuel)%nat ->
  length (flat_map (fun subgroup =>
         if Nat.ltb 1 (length subgroup)
         then [(Js.max subgroup - Js.min subgroup)%float] else []) (chunks_fuel fuel k l)) =
  (length l / k + if Nat.ltb 1 (length l mod k) then 1 else 0)%nat.
Proof.
  induction fuel as [|fuel IH]; intros l Hl.
  - destruct l; [|simpl in Hl; lia]. cbn. rewrite Nat.Div0.div_0_l, Nat.Div0.mod_0_l by lia. reflexivity.
  - destruct l as [|a l'].
    + cbn. rewrite Nat.Div0.div_0_l, Nat.Div0.mod_0_l by lia. reflexivity.
    + cbn [chunks_fuel flat_map]. rewrite length_app, IH by (rewrite length_skipn; cbn [length] in *; lia).
      rewrite length_skipn, length_firstn.
      rewrite <- (ranges_step (length (a :: l')) k Hk) by (cbn [length]; lia).
      destruct (Nat.ltb 1 (Nat.min k (length (a :: l')))); reflexivity.
Qed.


Lemma spc_movingRanges_count (l : list float) :
  length (SpcUtils.movingRanges l) = length l - 1.
Proof.
  induction l as [|a l IH]; [reflexivity|].
  destruct l as [|b l]; [reflexivity|]. cbn [SpcUtils.movingRanges length] in *. rewrite IH. lia.
Qed.

(** [calculateSubgroupXBar] returns one X-bar value per subgroup: for a
    sample size [k >= 1] and [n] measurements it returns [ceil(n / k)]
    values, the trailing partial subgroup included (for [k = 1] the [n]
    measurements themselves). *)
Theorem spc_xbar_count (l : list float) (k : nat) :
  0 < k -> length (SpcUtils.calculateSubgroupXBar l k) = (length l + k - 1) / k.
Proof.
  intro Hk. unfold SpcUtils.calculateSubgroupXBar.
  destruct (Nat.eqb_spec k 1) as [->|Hk1].
  - rewrite Nat.div_1_r. lia.
  - rewrite <- chunks_count by exact Hk.
    apply (flat_map_one_length (fun g => g <> [])); [|apply chunks_nonempty, Hk].
    intros g Hg. destruct g; [congruence|reflexivity].
Qed.

(** [calculateSubgroupRanges] returns [n - 1] moving ranges for sample size
    1; for a larger sample size [k] it returns one range per full subgroup
    and one more only when the trailing partial subgroup holds at least two
    measurements. *)
Theorem spc_ranges_count (l : list float) (k : nat) :
  0 < k ->
  length (SpcUtils.calculateSubgroupRanges l k) =
  (if Nat.eqb k 1 then length l - 1
   else length l / k + (if Nat.ltb 1 (length l mod k) then 1 else 0)).
Proof.
  intro Hk. unfold SpcUtils.calculateSubgroupRanges.
  destruct (Nat.eqb_spec k 1) as [->|Hk1]; [apply spc_movingRanges_count|].
  apply spc_ranges_fuel; [lia|reflexivity].
Qed.

(** In part_000 the subgroup means number [ceil(n / k)] for every sample
    size [k >= 1]; for [k >= 2] the subgroup ranges are exactly as many,
    a one-point trailing subgroup contributing a range too; for [k = 1] the
    ranges are the finite moving ranges. *)
Theorem part_subgroups_count (l : list float) (k : nat) :
  0 < k ->
  length (fst (Part000.subgroups l k)) = (length l + k - 1) / k /\
  length (snd (Part000.subgroups l k)) =
    (if Nat.eqb k 1 then length (Part000.movingRanges l) else (length l + k - 1) / k).
Proof.
  intro Hk. destruct (Nat.eqb_spec k 1) as [->|Hk1].
  - cbn [Part000.subgroups Nat.eqb fst snd]. rewrite length_map, Nat.div_1_r. split; [lia|reflexivity].
  - rewrite Subgroups.Part000_subgroups_chunks by exact Hk1. cbn [fst snd].
    rewrite <- chunks_count by exact Hk.
    split; apply (flat_map_one_length (fun g => g <> [])); try (apply chunks_nonempty, Hk);
      intros g Hg; destruct g; first [congruence | reflexivity].
Qed.

(** Subgrouping in spcUtils.ts composes over concatenation: when the first
    part of the series is a whole number of subgroups of size [k >= 2], the
    X-bar and range series of the whole are those of the two parts, one
    after the other. *)
Theorem spc_subgroups_app (k q : nat) (p s : list float) :
  1 < k -> length p = q * k ->
  SpcUtils.calculateSubgroupXBar (p ++ s) k =
    SpcUtils.calculateSubgroupXBar p k ++ SpcUtils.calculateSubgroupXBar s k /\
  SpcUtils.calculateSubgroupRanges (p ++ s) k =
    SpcUtils.calculateSubgroupRanges p k ++ SpcUtils.calculateSubgroupRanges s k.
Proof.
  intros Hk Hp. unfold SpcUtils.calculateSubgroupXBar, SpcUtils.calculateSubgroupRanges.
  replace (Nat.eqb k 1) with false by (symmetry; apply Nat.eqb_neq; lia).
  rewrite (LastChunk.chunks_app k ltac:(lia) q p s Hp), !flat_map_app. split; reflexivity.
Qed.

(** The same composition for the subgroup means and ranges of part_000. *)
Theorem part_subgroups_app (k q : nat) (p s : list float) :
  1 < k -> length p = q * k ->
  Part000.subgroups (p ++ s) k =
    (fst (Part000.subgroups p k) ++ fst (Part000.subgroups s k),
     snd (Part000.subgroups p k) ++ snd (Part000.subgroups s k)).
Proof.
  intros Hk Hp. rewrite !Subgroups.Part000_subgroups_chunks by lia. cbn [fst snd].
  rewrite (LastChunk.chunks_app k ltac:(lia) q p s Hp), !flat_map_app. reflexivity.
Qed.


Lemma spc_xbar_count_witness :
  (0 < 2) /\ length (SpcUtils.calculateSubgroupXBar [1; 2; 3]%float 2) = (3 + 2 - 1) / 2.
Proof. split; [lia|apply (spc_xbar_count [1; 2; 3]%float 2); lia]. Defined.

Lemma spc_ranges_count_witness :
  (0 < 2) /\ length (SpcUtils.calculateSubgroupRanges [1; 2; 3]%float 2) =
  (if Nat.eqb 2 1 then 3 - 1 else 3 / 2 + (if Nat.ltb 1 (3 mod 2) then 1 else 0)).
Proof. split; [lia|apply (spc_ranges_count [1; 2; 3]%float 2); lia]. Defined.

Lemma part_subgroups_count_witness :
  (0 < 2) /\
  length (fst (Part000.subgroups [1; 2; 3]%float 2)) = (3 + 2 - 1) / 2 /\
  length (snd (Part000.subgroups [1; 2; 3]%float 2)) =
    (if Nat.eqb 2 1 then length (Part000.movingRanges [1; 2; 3]%float) else (3 + 2 - 1) / 2).
Proof. split; [lia|apply (part_subgroups_count [1; 2; 3]%float 2); lia]. Defined.

Lemma spc_subgroups_app_witness :
  (1 < 2) /\ length [1; 2]%float = 1 * 2 /\
  SpcUtils.calculateSubgroupXBar ([1; 2] ++ [3])%float 2 =
    SpcUtils.calculateSubgroupXBar [1; 2]%float 2 ++ SpcUtils.calculateSubgroupXBar [3]%float 2 /\
  SpcUtils.calculateSubgroupRanges ([1; 2] ++ [3])%float 2 =
    SpcUtils.calculateSubgroupRanges [1; 2]%float 2 ++ SpcUtils.calculateSubgroupRanges [3]%float 2.
Proof.
  split; [lia|split; [reflexivity|]].
  apply (spc_subgroups_app 2 1 [1; 2]%float [3]%float); [lia|reflexivity].
Defined.

Lemma part_subgroups_app_witness :
  (1 < 2) /\ length [1; 2]%float = 1 * 2 /\
  Part000.subgroups ([1; 2] ++ [3])%float 2 =
    (fst (Part000.subgroups [1; 2]%float 2) ++ fst (Part000.subgroups [3]%float 2),
     snd (Part000.subgroups [1; 2]%float 2) ++ snd (Part000.subgroups [3]%float 2)).
Proof.
  split; [lia|split; [reflexivity|]].
  apply (part_subgroups_app 2 1 [1; 2]%float [3]%float); [lia|reflexivity].
Defined.

End SubgroupCounts.

(** ** Shape of the histogram *)
Module Histogram.
Local Open Scope nat_scope.

Lemma incr_at_length (i : nat) (l : list nat) : length (incr_at i l) = length l.
Proof. revert i; induction l as [|x l IH]; intros [|i]; simpl; auto. Qed.

Lemma incr_at_sum (i : nat) (l : list nat) : list_sum (incr_at i l) <= S (list_sum l).
Proof. revert i; induction l as [|x l IH]; intros [|i]; simpl; try lia. specialize (IH i). lia. Qed.

Lemma spc_bin_step (mx bs bw bc : float) (n : nat) (bins : list nat) (v : float) :
  length (SpcUtils.bin_step mx bs bw bc n bins v) = length bins /\
  list_sum (SpcUtils.bin_step mx bs bw bc n bins v) <= S (list_sum bins).
Proof.
  unfold SpcUtils.bin_step.
  destruct (Js.eq v mx); [split; [apply incr_at_length|apply incr_at_sum]|].
  destruct (_ && _); [split; [apply incr_at_length|apply incr_at_sum]|split; lia].
Qed.

Lemma part_bin_step (mx bs bw bc : float) (n : nat) (bins : list nat) (v : float) :
  length (Part000.bin_step mx bs bw bc n bins v) = length bins /\
  list_sum (Part000.bin_step mx bs bw bc n bins v) <=
    list_sum bins + (if Js.isFinite v then 1 else 0).
Proof.
  unfold Part000.bin_step.
  destruct (Js.isFinite v); cbn [negb]; [|split; lia].
  destruct (_ && _); [|split; lia].
  split; [apply incr_at_length|]. pose proof (incr_at_sum (Js.to_index
    (if Js.eq v mx then Js.of_nat (n - 1) else Js.floor ((v - bs) / bw)%float)) bins). lia.
Qed.

Lemma spc_bins_fold (mx bs bw bc : float) (n : nat) (data : list float) :
  forall bins,
  length (fold_left (SpcUtils.bin_step mx bs bw bc n) data bins) = length bins /\
  list_sum (fold_left (SpcUtils.bin_step mx bs bw bc n) data bins) <= list_sum bins + length data.
Proof.
  induction data as [|v data IH]; intro bins; cbn [fold_left length]; [lia|].
  destruct (spc_bin_step mx bs bw bc n bins v) as [L S].
  destruct (IH (SpcUtils.bin_step mx bs bw bc n bins v)) as [L' S']. lia.
Qed.

Lemma part_bins_fold (mx bs bw bc : float) (n : nat) (data : list float) :
  forall bins,
  length (fold_left (Part000.bin_step mx bs bw bc n) data bins) = length bins /\
  list_sum (fold_left (Part000.bin_step mx bs bw bc n) data bins) <=
    list_sum bins + length (filter Js.isFinite data).
Proof.
  induction data as [|v data IH]; intro bins; cbn [fold_left length filter]; [lia|].
  destruct (part_bin_step mx bs bw bc n bins v) as [L S].
  destruct (IH (Part000.bin_step mx bs bw bc n bins v)) as [L' S'].
  destruct (Js.isFinite v); cbn [length]; lia.
Qed.

Lemma repeat_zero (n : nat) : list_sum (repeat 0 n) = 0 /\ length (repeat 0 n) = n.
Proof. induction n as [|n IH]; simpl; lia. Qed.

(** The histogram of spcUtils.ts for a non-empty series has one more bin
    edge than bins, and its bins count at most one value per measurement:
    no value is counted twice. *)
Theorem spc_histogram_shape (data : list float) (lsl usl : float) :
  data <> [] ->
  exists dd, SpcUtils.calculateDistributionData data lsl usl = Some dd /\
    length (binEdges dd) = S (length (bins dd)) /\
    list_sum (bins dd) <= length data.
Proof.
  intro Hne. destruct data as [|x data']; [congruence|].
  eexists; split; [reflexivity|]. cbv zeta. cbn [binEdges bins].
  rewrite length_map, length_seq.
  match goal with |- context [fold_left (SpcUtils.bin_step ?a ?b ?c ?d ?e) ?dd (repeat 0 ?n)] =>
    destruct (spc_bins_fold a b c d e dd (repeat 0 n)) as [L S];
    destruct (repeat_zero n) as [Z0 L0] end.
  lia.
Qed.

(** The histogram of part_000 for a non-empty series has one more bin edge
    than bins, and its bins count at most the finite measurements: a
    non-finite value is never counted. *)
Theorem part_histogram_shape (data : list float) (lsl usl : float) :
  data <> [] ->
  exists dd, Part000.calculateDistributionData data lsl usl = Some dd /\
    length (binEdges dd) = S (length (bins dd)) /\
    list_sum (bins dd) <= length (filter Js.isFinite data).
Proof.
  intro Hne. destruct data as [|x data']; [congruence|].
  eexists; split; [reflexivity|]. cbv zeta. cbn [binEdges bins].
  rewrite length_map, length_seq.
  match goal with |- context [fold_left (Part000.bin_step ?a ?b ?c ?d ?e) ?dd (repeat 0 ?n)] =>
    destruct (part_bins_fold a b c d e dd (repeat 0 n)) as [L S];
    destruct (repeat_zero n) as [Z0 L0] end.
  lia.
Qed.


Lemma spc_histogram_shape_witness :
  [1; 2; 3]%float <> [] /\
  exists dd, SpcUtils.calculateDistributionData [1; 2; 3]%float 0 10 = Some dd /\
    length (binEdges dd) = S (length (bins dd)) /\ list_sum (bins dd) <= length [1; 2; 3]%float.
Proof. split; [discriminate|apply (spc_histogram_shape [1; 2; 3]%float 0 10); discriminate]. Defined.

Lemma part_histogram_shape_witness :
  [1; infinity; 3]%float <> [] /\
  exists dd, Part000.calculateDistributionData [1; infinity; 3]%float 0 10 = Some dd /\
    length (binEdges dd) = S (length (bins dd)) /\
    list_sum (bins dd) <= length (filter Js.isFinite [1; infinity; 3]%float).
Proof. split; [discriminate|apply (part_histogram_shape [1; infinity; 3]%float 0 10); discriminate]. Defined.

End Histogram.

(** ** The finite-value filters of part_000 *)
Module MeanFinite.

Lemma filter_idem {A} (f : A -> bool) (l : list A) : filter f (filter f l) = filter f l.
Proof.
  induction l as [|a l IH]; [reflexivity|]. simpl. destruct (f a) eqn:E; simpl; [rewrite E|]; congruence.
Qed.

Lemma part_mean_none (data : list float) :
  Part000.calculateMean data = None <-> filter Js.isFinite data = [].
Proof.
  destruct data as [|x data']; [split; reflexivity|]. unfold Part000.calculateMean.
  destruct (filter Js.isFinite (x :: data')); split; first [reflexivity | discriminate].
Qed.

End MeanFinite.

(** ** Bounds of the run counters *)
Module RunBounds.
Import SpecSide.
Local Open Scope nat_scope.

Lemma has_streak_le (p : float -> bool) (n : nat) (xs : list float) :
  has_streak p n xs -> n <= length xs.
Proof.
  intros (pre & mid & post & -> & L & _). rewrite !length_app. lia.
Qed.

(** [analyzeRuns] returns null exactly when the series holds no finite
    value. *)
Theorem part_runs_none (data : list float) :
  Part000.analyzeRuns data = None <-> filter Js.isFinite data = [].
Proof.
  rewrite <- MeanFinite.part_mean_none.
  destruct (Part000.calculateMean data) as [m|] eqn:Hm.
  - destruct (Streaks.part_analyzeRuns data m Hm) as (r & -> & _). split; discriminate.
  - rewrite (Streaks.part_analyzeRuns_none data Hm). split; reflexivity.
Qed.

Lemma part_count_step (mean : float) (st : Part000.RunState) (y : float) (n : nat) :
  match Part000.rs_prevAboveMean st with
  | None => n = 0 /\ Part000.rs_runsAbove st + Part000.rs_runsBelow st = 0
  | Some _ => 1 <= Part000.rs_currentRun st /\
      Part000.rs_runsAbove st + Part000.rs_runsBelow st + Part000.rs_currentRun st <= n
  end ->
  let st' := Part000.run_step mean st y in
  match Part000.rs_prevAboveMean st' with
  | None => S n = 0 /\ Part000.rs_runsAbove st' + Part000.rs_runsBelow st' = 0
  | Some _ => 1 <= Part000.rs_currentRun st' /\
      Part000.rs_runsAbove st' + Part000.rs_runsBelow st' + Part000.rs_currentRun st' <= S n
  end.
Proof.
  destruct st as [ra rb mx cur [b|]]; cbn [Part000.rs_prevAboveMean Part000.rs_currentRun
    Part000.rs_runsAbove Part000.rs_runsBelow Part000.run_step]; intro H; [|destruct H as [-> H]; cbn; lia].
  destruct (Bool.eqb (Js.gt y mean) b); [cbn; lia|].
  destruct b; cbn; lia.
Qed.

Lemma part_count_fold (mean : float) (xs : list float) :
  let st := fold_left (Part000.run_step mean) xs (Part000.Build_RunState 0 0 0 0 None) in
  match Part000.rs_prevAboveMean st with
  | None => length xs = 0 /\ Part000.rs_runsAbove st + Part000.rs_runsBelow st = 0
  | Some _ => 1 <= Part000.rs_currentRun st /\
      Part000.rs_runsAbove st + Part000.rs_runsBelow st + Part000.rs_currentRun st <= length xs
  end.
Proof.
  induction xs as [|y xs IH] using rev_ind; [split; reflexivity|].
  cbv zeta in *. rewrite fold_left_app, length_app. cbn [fold_left length].
  rewrite Nat.add_1_r. apply part_count_step, IH.
Qed.

Lemma trend_bound (data : list float) :
  forall prev mU mD tU tD n, mU <= n -> mD <= n -> tU <= n -> tD <= n ->
  match Part000.trend_loop prev data (mU, mD, tU, tD) with
  | (mU', mD', _, _) => mU' <= n + length data /\ mD' <= n + length data
  end.
Proof.
  induction data as [|x data IH]; intros prev mU mD tU tD n H1 H2 H3 H4; cbn [Part000.trend_loop length].
  - lia.
  - destruct (Js.gt x prev); [|destruct (Js.lt x prev)];
      (match goal with |- match Part000.trend_loop _ _ (?a, ?b, ?c, ?d) with _ => _ end =>
         pose proof (IH x a b c d (S n)) as G end);
      (destruct (Part000.trend_loop _ _ _) as [[[u d] e] f]; lia).
Qed.

(** For a series with a finite value, [analyzeRuns] returns a longest run
    between 1 and the number of points, between 1 and that many completed
    runs above and below the mean, and trend lengths of at most the number
    of points. *)
Theorem part_runs_bounds (data : list float) :
  filter Js.isFinite data <> [] ->
  exists r, Part000.analyzeRuns data = Some r /\
    1 <= Part000.maxRunLength r <= length data /\
    1 <= Part000.runsAbove r + Part000.runsBelow r <= length data /\
    Part000.maxTrendUp r <= length data /\ Part000.maxTrendDown r <= length data.
Proof.
  intro Hf.
  destruct (Part000.calculateMean data) as [m|] eqn:Hm;
    [|apply MeanFinite.part_mean_none in Hm; contradiction].
  destruct (Streaks.part_analyzeRuns data m Hm) as (r & Hr & C).
  exists r. split; [exact Hr|].
  assert (Hne : data <> []) by (intros ->; apply Hf; reflexivity).
  split; [split|].
  - apply C. destruct data as [|d0 rest]; [congruence|].
    destruct (Js.gt d0 m) eqn:G; [left|right];
      exists [], [d0], rest; (split; [reflexivity|split; [reflexivity|]]); cbn [forallb]; rewrite G; reflexivity.
  - destruct (proj2 (C (Part000.maxRunLength r)) (le_n _)) as [S|S]; exact (has_streak_le _ _ _ S).
  - destruct data as [|d0 rest]; [congruence|].
    unfold Part000.analyzeRuns in Hr. rewrite Hm in Hr.
    pose proof (part_count_fold m (d0 :: rest)) as I. cbv zeta in I.
    destruct (fold_left _ _ _) as [ra rb mx cur [b|]]; cbn in I; [|destruct I as [I _]; discriminate].
    pose proof (trend_bound rest d0 0 0 1 1 1) as T.
    destruct (Part000.trend_loop _ _ _) as [[[mU mD] tU] tD].
    destruct b; injection Hr as <-; cbn [Part000.runsAbove Part000.runsBelow Part000.maxTrendUp
      Part000.maxTrendDown length] in *; lia.
Qed.

(** The invariant of the loop of spcUtils.ts after [n] points. *)
Local Abbreviation spc_inv prev st n :=
  (SpcUtils.maxConsecutiveAbove st + SpcUtils.maxConsecutiveBelow st <= n /\
   SpcUtils.consecutiveAboveMean st + SpcUtils.maxConsecutiveBelow st <= n /\
   SpcUtils.consecutiveBelowMean st + SpcUtils.maxConsecutiveAbove st <= n /\
   SpcUtils.consecutiveAboveMean st <= SpcUtils.maxConsecutiveAbove st /\
   SpcUtils.consecutiveBelowMean st <= SpcUtils.maxConsecutiveBelow st /\
   (SpcUtils.consecutiveIncreasing st = 0 \/ SpcUtils.consecutiveDecreasing st = 0) /\
   match prev with
   | None => n = 0 /\ SpcUtils.consecutiveIncreasing st = 0 /\ SpcUtils.consecutiveDecreasing st = 0
   | Some _ => SpcUtils.consecutiveIncreasing st + SpcUtils.consecutiveDecreasing st + 1 <= n
   end).

Lemma spc_inv_step (gm : float) (prev : option float) (st : SpcUtils.RunState) (y : float) (n : nat) :
  spc_inv prev st n -> spc_inv (Some y) (SpcUtils.run_step gm prev st y) (S n).
Proof.
  destruct st as [cA cB mA mB cI cD]. unfold SpcUtils.run_step. intro I. cbn in I. revert I.
  destruct (Js.gt y gm), (Js.lt y gm);
    (destruct prev as [p|]; [destruct (Js.gt y p), (Js.lt y p)|]); cbn; lia.
Qed.

Lemma spc_inv_loop (gm : float) (ys : list float) :
  forall prev st n, spc_inv prev st n ->
  let st' := SpcUtils.run_loop gm prev st ys in
  SpcUtils.maxConsecutiveAbove st' + SpcUtils.maxConsecutiveBelow st' <= n + length ys /\
  (SpcUtils.consecutiveIncreasing st' = 0 \/ SpcUtils.consecutiveDecreasing st' = 0) /\
  SpcUtils.consecutiveIncreasing st' + SpcUtils.consecutiveDecreasing st' <= n + length ys - 1.
Proof.
  induction ys as [|y ys IH]; intros prev st n I; cbn [SpcUtils.run_loop length].
  - destruct prev; lia.
  - pose proof (IH (Some y) (SpcUtils.run_step gm prev st y) (S n) (spc_inv_step gm prev st y n I)) as G. cbv zeta in *. lia.
Qed.

(** After the run-and-trend loop of spcUtils.ts over [n] points, the
    longest run above the mean and the longest run below it together span
    at most [n] points, and the final increasing and decreasing counters are
    never both non-zero and together at most [n - 1]. *)
Theorem spc_run_counters (gm : float) (xs : list float) :
  let st := SpcUtils.run_loop gm None SpcUtils.run_init xs in
  SpcUtils.maxConsecutiveAbove st + SpcUtils.maxConsecutiveBelow st <= length xs /\
  (SpcUtils.consecutiveIncreasing st = 0 \/ SpcUtils.consecutiveDecreasing st = 0) /\
  SpcUtils.consecutiveIncreasing st + SpcUtils.consecutiveDecreasing st <= length xs - 1.
Proof. apply (spc_inv_loop gm xs None SpcUtils.run_init 0). cbn. lia. Qed.


Lemma part_runs_bounds_witness :
  filter Js.isFinite [1; 3; 2]%float <> [] /\
  exists r, Part000.analyzeRuns [1; 3; 2]%float = Some r /\
    1 <= Part000.maxRunLength r <= length [1; 3; 2]%float /\
    1 <= Part000.runsAbove r + Part000.runsBelow r <= length [1; 3; 2]%float /\
    Part000.maxTrendUp r <= length [1; 3; 2]%float /\
    Part000.maxTrendDown r <= length [1; 3; 2]%float.
Proof. split; [discriminate|apply (part_runs_bounds [1; 3; 2]%float); discriminate]. Defined.

End RunBounds.

(** ** Shape of a result *)
Module ResultShape.
Import Inputs.
Local Open Scope nat_scope.

Lemma part_movingRanges_count (l : list float) :
  length (Part000.movingRanges l) <= length l - 1.
Proof.
  induction l as [|a l IH]; [cbn; lia|].
  destruct l as [|b l]; [cbn; lia|]. cbn [Part000.movingRanges].
  destruct (Js.isFinite _); simpl in *; lia.
Qed.

Lemma count_ge (n k : nat) :
  (1 <= k <= 5) -> Js.lt (Js.of_nat n) (Js.of_nat k) = false -> k <= n.
Proof.
  intros Hk H.
  destruct (Z.lt_ge_cases (Z.of_nat n) (2 ^ 53)) as [L|L].
  - rewrite NatFloat.lt_of_nat in H by (exact L || (change (2 ^ 53)%Z with 9007199254740992%Z; lia)).
    apply Nat.ltb_ge, H.
  - change (2 ^ 53)%Z with 9007199254740992%Z in L. lia.
Qed.

(** A result of spcUtils.ts for sample size [k] and [n] non-NaN
    measurements has [k <= n], [ceil(n / k)] X-bar points, the range points
    counted by [spc_ranges_count], and out-of-limit counts of at most the
    number of plotted points. *)
Theorem spc_result_series (inspectionData : list InspectionData) (sampleSize : float)
    (k : nat) (cst : ChartConstants) (r : AnalysisData) :
  controlChartConstants sampleSize = Some (k, cst) ->
  SpcUtils.calculateAnalysisData inspectionData sampleSize = inr r ->
  let n := length (filter (fun m => negb (Js.isNaN m))
             (map (fun d => parseFloat (ActualSpecification d)) inspectionData)) in
  k <= n /\
  length (xBarData r) = (n + k - 1) / k /\
  length (rangeData r) =
    (if Nat.eqb k 1 then n - 1 else n / k + (if Nat.ltb 1 (n mod k) then 1 else 0)) /\
  pointsOutsideXBarLimits r <= length (xBarData r) /\
  pointsOutsideRangeLimits r <= length (rangeData r).
Proof.
  intros Hc H. cbv zeta.
  unfold SpcUtils.calculateAnalysisData in H. rewrite Hc in H.
  destruct (NatFloat.sample_size_of_nat _ _ _ Hc) as [-> Hk].
  destruct (Js.lt _ _) eqn:Hlt; [discriminate|].
  destruct inspectionData as [|d0 rest]; [discriminate|].
  cbv zeta in H. apply Series.inr_eq in H. subst r.
  cbn [xBarData rangeData pointsOutsideXBarLimits pointsOutsideRangeLimits].
  split; [exact (count_ge _ _ Hk Hlt)|].
  split; [apply SubgroupCounts.spc_xbar_count; lia|].
  split; [apply SubgroupCounts.spc_ranges_count; lia|].
  split; apply Outcome.count_filter_le'.
Qed.

(** A result of part_000 for sample size [k] and [n] valid records has
    [k <= n] and [ceil(n / k)] X-bar points; its range points are at most
    [n - 1] for [k = 1] and as many as the X-bar points otherwise; its
    out-of-limit counts are at most the number of plotted points. *)
Theorem part_result_series (inspectionData : list InspectionData) (sampleSize : float)
    (k : nat) (cst : ChartConstants) (r : AnalysisData) :
  controlChartConstants sampleSize = Some (k, cst) ->
  Part000.calculateAnalysisData inspectionData sampleSize = inr r ->
  let n := length (filter Part000.valid inspectionData) in
  k <= n /\
  length (xBarData r) = (n + k - 1) / k /\
  (k = 1 -> length (rangeData r) <= n - 1) /\
  (k <> 1 -> length (rangeData r) = length (xBarData r)) /\
  pointsOutsideXBarLimits r <= length (xBarData r) /\
  pointsOutsideRangeLimits r <= length (rangeData r).
Proof.
  intros Hc H. cbv zeta.
  unfold Part000.calculateAnalysisData in H. rewrite Hc in H.
  destruct (NatFloat.sample_size_of_nat _ _ _ Hc) as [-> Hk].
  destruct (Js.lt _ _) eqn:Hlt; [discriminate|].
  rewrite length_map in Hlt. apply (count_ge _ _ Hk) in Hlt.
  revert Hlt H. destruct (filter Part000.valid inspectionData) as [|d0 rest]; [discriminate|].
  intros Hlt H.
  pose proof (SubgroupCounts.part_subgroups_count
    (map (fun d => parseFloat (ActualSpecification d)) (d0 :: rest)) k ltac:(lia)) as [Cm Cr].
  pose proof (part_movingRanges_count (map (fun d => parseFloat (ActualSpecification d)) (d0 :: rest))) as Mr.
  destruct (Part000.subgroups _ k) as [means ranges].
  cbv zeta in H. apply Series.inr_eq in H. subst r.
  cbn [xBarData rangeData pointsOutsideXBarLimits pointsOutsideRangeLimits fst snd] in *.
  rewrite length_map in Cm, Cr, Mr.
  split; [exact Hlt|]. split; [exact Cm|].
  split; [intros ->; cbn [Nat.eqb] in Cr; lia|].
  split; [intro Hk1; apply Nat.eqb_neq in Hk1; rewrite Hk1 in Cr; lia|].
  split; apply Outcome.count_filter_le'.
Qed.

(** Neither implementation reads the limits of a first record that does not
    exist: an empty (or, in part_000, all-invalid) input always fails the
    sample-size or data-count check first. *)
Theorem never_undefined_record (inspectionData : list InspectionData) (sampleSize : float) :
  SpcUtils.calculateAnalysisData inspectionData sampleSize <> inl UndefinedRecord /\
  Part000.calculateAnalysisData inspectionData sampleSize <> inl UndefinedRecord.
Proof.
  split.
  - unfold SpcUtils.calculateAnalysisData.
    destruct (controlChartConstants sampleSize) as [[k cst]|] eqn:Hc; [|discriminate].
    destruct (NatFloat.sample_size_of_nat _ _ _ Hc) as [-> Hk].
    destruct (Js.lt _ _) eqn:Hlt; [discriminate|].
    apply (count_ge _ _ Hk) in Hlt.
    destruct inspectionData as [|d0 rest]; [cbn in Hlt; lia|discriminate].
  - unfold Part000.calculateAnalysisData.
    destruct (controlChartConstants sampleSize) as [[k cst]|] eqn:Hc; [|discriminate].
    destruct (NatFloat.sample_size_of_nat _ _ _ Hc) as [-> Hk].
    destruct (Js.lt _ _) eqn:Hlt; [discriminate|].
    apply (count_ge _ _ Hk) in Hlt. revert Hlt.
    destruct (filter Part000.valid inspectionData) as [|d0 rest]; [cbn; lia|].
    intros _. destruct (Part000.subgroups _ k). discriminate.
Qed.

(** part_000 ignores invalid records entirely: removing them beforehand
    does not change the result, the limits included. *)
Theorem part_ignores_invalid_records (inspectionData : list InspectionData) (sampleSize : float) :
  Part000.calculateAnalysisData (filter Part000.valid inspectionData) sampleSize =
  Part000.calculateAnalysisData inspectionData sampleSize.
Proof. unfold Part000.calculateAnalysisData. rewrite MeanFinite.filter_idem. reflexivity. Qed.


Lemma spc_result_series_witness :
  exists cst r, controlChartConstants 2 = Some (2, cst) /\
  SpcUtils.calculateAnalysisData oneTwoThree 2 = inr r /\
  let n := length (filter (fun m => negb (Js.isNaN m))
             (map (fun d => parseFloat (ActualSpecification d)) oneTwoThree)) in
  2 <= n /\
  length (xBarData r) = (n + 2 - 1) / 2 /\
  length (rangeData r) =
    (if Nat.eqb 2 1 then n - 1 else n / 2 + (if Nat.ltb 1 (n mod 2) then 1 else 0)) /\
  pointsOutsideXBarLimits r <= length (xBarData r) /\
  pointsOutsideRangeLimits r <= length (rangeData r).
Proof.
  destruct (controlChartConstants 2) as [[k cst]|] eqn:Hc; [|discriminate].
  pose proof Hc as Hk. vm_compute in Hk. injection Hk as <- _.
  destruct (SpcUtils.calculateAnalysisData oneTwoThree 2) as [e|r] eqn:E;
    [vm_compute in E; discriminate|].
  exists cst, r. split; [reflexivity|split; [reflexivity|]].
  exact (spc_result_series oneTwoThree 2 2 cst r Hc E).
Defined.

Lemma part_result_series_witness :
  exists cst r, controlChartConstants 2 = Some (2, cst) /\
  Part000.calculateAnalysisData oneTwoThree 2 = inr r /\
  let n := length (filter Part000.valid oneTwoThree) in
  2 <= n /\
  length (xBarData r) = (n + 2 - 1) / 2 /\
  (2 = 1 -> length (rangeData r) <= n - 1) /\
  (2 <> 1 -> length (rangeData r) = length (xBarData r)) /\
  pointsOutsideXBarLimits r <= length (xBarData r) /\
  pointsOutsideRangeLimits r <= length (rangeData r).
Proof.
  destruct (controlChartConstants 2) as [[k cst]|] eqn:Hc; [|discriminate].
  pose proof Hc as Hk. vm_compute in Hk. injection Hk as <- _.
  destruct (Part000.calculateAnalysisData oneTwoThree 2) as [e|r] eqn:E;
    [vm_compute in E; discriminate|].
  exists cst, r. split; [reflexivity|split; [reflexivity|]].
  exact (part_result_series oneTwoThree 2 2 cst r Hc E).
Defined.

End ResultShape.

(** ** Regression examples of the [parseFloat] model *)
Module ParseFloatExamples.
Local Open Scope float_scope.
Example p1 : parseFloat "12.5" = 12.5. Proof. vm_compute. reflexivity. Qed.
Example p2 : parseFloat "  -0.1xyz" = -0.1. Proof. vm_compute. reflexivity. Qed.
Example p3 : PrimFloat.is_nan (parseFloat "abc") = true. Proof. vm_compute. reflexivity. Qed.
Example p4 : parseFloat "-1e308" = -1e308. Proof. vm_compute. reflexivity. Qed.
Example p5 : parseFloat "Infinity" = infinity. Proof. vm_compute. reflexivity. Qed.
Example p6 : parseFloat "3e" = 3. Proof. vm_compute. reflexivity. Qed.
Example p7 : parseFloat ".5E-1" = 0.05. Proof. vm_compute. reflexivity. Qed.
Example p8 : Js.floor (-0.5) = -1. Proof. vm_compute. reflexivity. Qed.
Example p9 : Js.ceil (Js.sqrt (Js.of_nat 5)) = 3. Proof. vm_compute. reflexivity. Qed.
Example p10 : Js.max [1; 3; 2] = 3 /\ Js.min [1; 3; 2] = 1. Proof. vm_compute. split; reflexivity. Qed.
End ParseFloatExamples.
